(** * StarkGate front-end: the L2 -> L1 transfer hooks and the decimal helpers

    A shallow embedding of the hooks [useTransferToL1] and
    [useCompleteTransferToL1] and of the number helpers [powerOf],
    [toDecimals] and [fromDecimals].

    The hooks are callback-driven JavaScript.  Every call a hook makes on one
    of its collaborators (logger, tracking, progress handlers, chain API,
    withdrawal listener) is recorded, in program order, in a trace; what the
    collaborators answer (how a promise settles, which callbacks fire) is the
    environment of a run. *)

From Stdlib Require Import ZArith List String Bool Lia DecimalString.
From Stdlib Require Import PrimFloat SpecFloat FloatOps FloatAxioms.
Import ListNotations.

Local Open Scope string_scope.
Local Open Scope list_scope.

(** ** JavaScript values, as far as the hooks look into them *)

#[local] Set Warnings "-register-all".

Module Js.

Inductive value : Type :=
| undefined
| null
| num (f : float)
| str (s : string)
| obj (fields : list (string * value)).

Definition is_nullish (v : value) : bool :=
  match v with
  | undefined | null => true
  | _ => false
  end.

(** ToBoolean: what [if (error)] tests. *)
Definition truthy (v : value) : bool :=
  match v with
  | undefined | null => false
  | num f => negb (PrimFloat.is_zero f || PrimFloat.is_nan f)
  | str s => negb (String.eqb s "")
  | obj _ => true
  end.

Fixpoint field (k : string) (fs : list (string * value)) : value :=
  match fs with
  | [] => undefined
  | (k', v) :: fs' => if String.eqb k k' then v else field k fs'
  end.

(** The error the engine raises when a property of [undefined] or [null]
    is read.  (The wording of the message is the engine's, and differs
    between a property read and a destructuring; nothing below depends on
    it.) *)
Definition TypeError (k : string) (v : value) : value :=
  let what := match v with null => "null" | _ => "undefined" end in
  obj [("name", str "TypeError");
       ("message",
        str ("Cannot read properties of " ++ what ++ " (reading '" ++ k ++ "')"))].

(** [v.k], and the destructuring [const {k: x} = v]: the value read ([inl])
    or the error thrown ([inr]).  A nullish [v] throws, a primitive has none
    of the properties read here. *)
Definition get (v : value) (k : string) : value + value :=
  match v with
  | undefined | null => inr (TypeError k v)
  | num _ | str _ => inl undefined
  | obj fs => inl (field k fs)
  end.

(** [v?.k]: optional chaining never throws. *)
Definition get_opt (v : value) (k : string) : value :=
  match get v k with
  | inl x => x
  | inr _ => undefined
  end.

(** The characters of a string, as the properties ["0"], ["1"], ... *)
Fixpoint chars (i : nat) (s : string) : list (string * value) :=
  match s with
  | EmptyString => []
  | String c s' =>
      (NilEmpty.string_of_uint (Nat.to_uint i), str (String c EmptyString))
      :: chars (S i) s'
  end.

(** The own enumerable properties of a value, which an object spread
    [{...v}] copies: the fields of an object, the characters of a string,
    none of a number, of [undefined] or of [null] (a spread does not throw). *)
Definition own (v : value) : list (string * value) :=
  match v with
  | obj fs => fs
  | str s => chars 0 s
  | _ => []
  end.

(** Setting a property in an object literal: in place when the properties
    copied so far have the key, at the end otherwise. *)
Fixpoint set (k : string) (x : value) (fs : list (string * value))
    : list (string * value) :=
  match fs with
  | [] => [(k, x)]
  | (k', v) :: fs' =>
      if String.eqb k k' then (k', x) :: fs' else (k', v) :: set k x fs'
  end.

(** [{...v, k: x}] *)
Definition spread_with (v : value) (k : string) (x : value) : value :=
  obj (set k x (own v)).

End Js.

(** ** Enumerations of ../enums *)

(** Modelled from the spec: the members of [TransferStep] and the two step
    lists are declared in ../enums, which is not under src/.  Section 4.1
    gives each flow its ordered steps: await confirmation, then the flow's
    own transaction step. *)
Inductive TransferStep : Type :=
| CONFIRM_TX
| INITIATE_WITHDRAW
| WITHDRAW.

Definition TransferStep_eqb (a b : TransferStep) : bool :=
  match a, b with
  | CONFIRM_TX, CONFIRM_TX
  | INITIATE_WITHDRAW, INITIATE_WITHDRAW
  | WITHDRAW, WITHDRAW => true
  | _, _ => false
  end.

Definition TransferToL1Steps : list TransferStep :=
  [CONFIRM_TX; INITIATE_WITHDRAW].

Definition CompleteTransferToL1Steps : list TransferStep :=
  [CONFIRM_TX; WITHDRAW].

(** Modelled from the spec: [stepOf] is declared in ../enums; a step is
    identified by its position in the flow's ordered list (-1 when the list
    does not have it, as [Array.prototype.indexOf]). *)
Fixpoint indexOf (s : TransferStep) (steps : list TransferStep) (i : Z) : Z :=
  match steps with
  | [] => -1
  | s' :: rest => if TransferStep_eqb s s' then i else indexOf s rest (i + 1)
  end.

Definition stepOf (s : TransferStep) (steps : list TransferStep) : Z :=
  indexOf s steps 0.

(** Modelled from the spec: the members of [TransferError] are declared in
    ../enums; section 7 lists the error kinds.  The hooks name
    [TRANSACTION_ERROR] only. *)
Inductive TransferError : Type :=
| MISSING_ACCOUNT
| UNKNOWN_TOKEN
| TRANSACTION_ERROR
| LISTENER_ERROR.

Inductive TransactionStatus : Type := RECEIVED.

(** ** What the hooks hand to their collaborators *)

(** The descriptors built by [useTransferProgress()]; the hooks only pass
    them on to [handleProgress] and [handleError]. *)
Module progressOptions.
Inductive t : Type :=
| waitForConfirm (network : Js.value) (step : Z)
| initiateWithdraw (amount symbol : Js.value) (step : Z)
| withdraw (amount symbol : Js.value) (step : Z)
| error (kind : TransferError) (ex : Js.value).
End progressOptions.

(** The argument of [initiateWithdraw] and of [withdraw] (../api/bridge);
    [withdraw] also gets the signing callback as [emitter]. *)
Record BridgeCall : Type := mkCall {
  call_recipient : Js.value;
  call_contract : Js.value;
  call_amount : Js.value;
  call_decimals : Js.value
}.

(** The calls a hook makes on its collaborators.  The logger, the tracking
    sink and the progress, data and error handlers are fire-and-forget: a
    call is recorded and returns.  [handleData] is given an object: the
    transfer record. *)
Inductive Effect : Type :=
| LoggerLog (msg : string) (data : list Js.value)
| LoggerError (message ex : Js.value)
| HandleProgress (p : progressOptions.t)
| HandleData (record : Js.value)
| HandleError (p : progressOptions.t)
| TrackInitiated (payload : Js.value)
| TrackSuccess (hash : Js.value)
| TrackError (ex : Js.value)
| CallInitiateWithdraw (args : BridgeCall)
| CallWaitForTransaction (hash : Js.value) (status : TransactionStatus)
| CallWithdraw (args : BridgeCall)
| AddListener
| RemoveListener.

(** ** The effect monad

    A computation runs on the trace so far and on the number of callbacks
    the withdrawal listener holds for this run, and completes normally, by a
    throw, or not at all (it awaits a promise that never settles). *)

Record World : Type := mkWorld {
  trace : list Effect;
  listeners : nat
}.

Inductive Completion (A : Type) : Type :=
| Normal (a : A)
| Throw (ex : Js.value)
| Suspended.
Arguments Normal {A} a.
Arguments Throw {A} ex.
Arguments Suspended {A}.

Definition Eff (A : Type) : Type := World -> World * Completion A.

Definition ret {A} (a : A) : Eff A := fun w => (w, Normal a).

Definition bind {A B} (m : Eff A) (k : A -> Eff B) : Eff B :=
  fun w =>
    match m w with
    | (w', Normal a) => k a w'
    | (w', Throw ex) => (w', Throw ex)
    | (w', Suspended) => (w', Suspended)
    end.

Definition throw {A} (ex : Js.value) : Eff A := fun w => (w, Throw ex).

(** [try { body } catch (ex) { handler }] *)
Definition try_catch {A} (body : Eff A) (handler : Js.value -> Eff A) : Eff A :=
  fun w =>
    match body w with
    | (w', Throw ex) => handler ex w'
    | r => r
    end.

Declare Scope eff_scope.
Delimit Scope eff_scope with eff.
Notation "x <- m ;; k" := (bind m (fun x => k))
  (at level 61, m at next level, right associativity) : eff_scope.
Notation "m ;; k" := (bind m (fun _ => k))
  (at level 61, right associativity) : eff_scope.
Local Open Scope eff_scope.

Definition emit (e : Effect) : Eff unit :=
  fun w => (mkWorld (trace w ++ [e]) (listeners w), Normal tt).

(** Reading a property inside a computation. *)
Definition prop (v : Js.value) (k : string) : Eff Js.value :=
  match Js.get v k with
  | inl x => ret x
  | inr ex => throw ex
  end.

(** How a promise handed out by a collaborator settles. *)
Inductive Settle : Type :=
| Resolves (v : Js.value)
| Rejects (reason : Js.value)
| NeverSettles.

Definition await (s : Settle) : Eff Js.value :=
  match s with
  | Resolves v => ret v
  | Rejects r => throw r
  | NeverSettles => fun w => (w, Suspended)
  end.

(** The promise an async function returns: a throw that leaves the function
    rejects it. *)
Inductive Promise : Type :=
| Fulfilled
| Rejected (reason : Js.value)
| Pending.

Definition settle_of {A} (c : Completion A) : Promise :=
  match c with
  | Normal _ => Fulfilled
  | Throw ex => Rejected ex
  | Suspended => Pending
  end.

(** Modelled from the spec: the listener bridge
    (../providers/EventManagerProvider) is not under src/.  Section 4.3:
    [addListener(callback)] registers a subscription, [removeListener()]
    deregisters what is registered. *)
Definition addListener : Eff unit :=
  fun w => (mkWorld (trace w ++ [AddListener]) (S (listeners w)), Normal tt).

Definition removeListener : Eff unit :=
  fun w => (mkWorld (trace w ++ [RemoveListener]) 0, Normal tt).

(** ** useTransferToL1: the initiation variant *)

Section TransferToL1.

(** What the hook closes over: the accounts of the two wallets, the
    configuration of the L2 wallet, the selected token and the contract
    accessor.  The providers hand out whatever they have: any of these is
    [undefined] or [null] when there is none. *)
Variables l1Account l2Account : Js.value.
Variable l2Config : Js.value.
Variable selectedToken : Js.value.
Variable getTokenBridgeContract : Js.value -> Js.value.

(** [ActionType.TRANSFER_TO_L1]: the enumeration is declared in ../enums,
    which is not under src/; the hook passes the member on and never looks
    at it. *)
Variable TRANSFER_TO_L1 : Js.value.

(** The chain: how the promises of [initiateWithdraw] (../api/bridge) and
    of [utils.blockchain.starknet.waitForTransaction] settle. *)
Variable initiateWithdraw : BridgeCall -> Settle.
Variable waitForTransaction : Js.value -> TransactionStatus -> Settle.

(** The closure [sendInitiateWithdraw], with the locals it captures. *)
Definition sendInitiateWithdraw (decimals bridgeAddress symbol amount : Js.value)
    : Eff Js.value :=
  emit (TrackInitiated
          (Js.obj [("from_address", l2Account);
                   ("to_address", l1Account);
                   ("amount", amount);
                   ("symbol", symbol)]));;
  let bridgeContract := getTokenBridgeContract bridgeAddress in
  let args := mkCall l1Account bridgeContract amount decimals in
  emit (CallInitiateWithdraw args);;
  await (initiateWithdraw args).

(** The callback.  The destructuring of [selectedToken] comes before the
    [try] block: what it throws leaves the callback. *)
Definition useTransferToL1 (amount : Js.value) : Eff unit :=
  decimals <- prop selectedToken "decimals";;
  bridgeAddress <- prop selectedToken "bridgeAddress";;
  name <- prop selectedToken "name";;
  symbol <- prop selectedToken "symbol";;
  try_catch
    (emit (LoggerLog "TransferToL1 called" []);;
     network <- prop l2Config "name";;
     emit (HandleProgress
             (progressOptions.waitForConfirm
                network (stepOf CONFIRM_TX TransferToL1Steps)));;
     emit (LoggerLog "Calling initiate withdraw" []);;
     receipt <- sendInitiateWithdraw decimals bridgeAddress symbol amount;;
     l2hash <- prop receipt "transaction_hash";;
     emit (LoggerLog "Tx hash received" [Js.obj [("l2hash", l2hash)]]);;
     emit (HandleProgress
             (progressOptions.initiateWithdraw
                amount symbol (stepOf INITIATE_WITHDRAW TransferToL1Steps)));;
     emit (LoggerLog "Waiting for tx to be received on L2" []);;
     emit (CallWaitForTransaction l2hash RECEIVED);;
     _ <- await (waitForTransaction l2hash RECEIVED);;
     emit (LoggerLog "Done" [Js.obj [("l2hash", l2hash)]]);;
     emit (TrackSuccess l2hash);;
     emit (HandleData
             (Js.obj [("type", TRANSFER_TO_L1);
                      ("sender", l2Account);
                      ("recipient", l1Account);
                      ("name", name);
                      ("symbol", symbol);
                      ("amount", amount);
                      ("l2hash", l2hash)])))
    (fun ex =>
       message <- prop ex "message";;
       emit (LoggerError message ex);;
       emit (TrackError ex);;
       emit (HandleError (progressOptions.error TRANSACTION_ERROR ex))).

(** One call of the hook's callback, from a fresh trace: what was done,
    and the state of the promise the callback returned. *)
Definition runTransferToL1 (amount : Js.value) : list Effect * Promise :=
  let (w, c) := useTransferToL1 amount (mkWorld [] 0) in
  (trace w, settle_of c).

(** Whether the callback gets to the submit call: [selectedToken] can be
    destructured and [l2Config] has a [name] to read. *)
Definition reaches_submit : bool :=
  negb (Js.is_nullish selectedToken || Js.is_nullish l2Config).

(** The stretches of a trace of the callback: the first line of the [try]
    block, up to the submit call, from the transaction hash to the wait, the
    end of the [try] block, and the [catch] block. *)
Definition initiate_call (amount : Js.value) : BridgeCall :=
  mkCall l1Account
         (getTokenBridgeContract (Js.get_opt selectedToken "bridgeAddress"))
         amount (Js.get_opt selectedToken "decimals").

Definition entering : list Effect :=
  [LoggerLog "TransferToL1 called" []].

Definition submitting (amount : Js.value) : list Effect :=
  [LoggerLog "TransferToL1 called" [];
   HandleProgress
     (progressOptions.waitForConfirm
        (Js.get_opt l2Config "name") (stepOf CONFIRM_TX TransferToL1Steps));
   LoggerLog "Calling initiate withdraw" [];
   TrackInitiated
     (Js.obj [("from_address", l2Account);
              ("to_address", l1Account);
              ("amount", amount);
              ("symbol", Js.get_opt selectedToken "symbol")]);
   CallInitiateWithdraw (initiate_call amount)].

Definition waiting (amount l2hash : Js.value) : list Effect :=
  [LoggerLog "Tx hash received" [Js.obj [("l2hash", l2hash)]];
   HandleProgress
     (progressOptions.initiateWithdraw
        amount (Js.get_opt selectedToken "symbol")
        (stepOf INITIATE_WITHDRAW TransferToL1Steps));
   LoggerLog "Waiting for tx to be received on L2" [];
   CallWaitForTransaction l2hash RECEIVED].

(** The record of an initiated transfer: the object given to [handleData]. *)
Definition initiated_record (amount l2hash : Js.value) : Js.value :=
  Js.obj [("type", TRANSFER_TO_L1);
          ("sender", l2Account);
          ("recipient", l1Account);
          ("name", Js.get_opt selectedToken "name");
          ("symbol", Js.get_opt selectedToken "symbol");
          ("amount", amount);
          ("l2hash", l2hash)].

Definition finishing (amount l2hash : Js.value) : list Effect :=
  [LoggerLog "Done" [Js.obj [("l2hash", l2hash)]];
   TrackSuccess l2hash;
   HandleData (initiated_record amount l2hash)].

Definition catching (tr : list Effect) (ex : Js.value) : list Effect * Promise :=
  match Js.get ex "message" with
  | inl message =>
      (tr ++ [LoggerError message ex;
              TrackError ex;
              HandleError (progressOptions.error TRANSACTION_ERROR ex)],
       Fulfilled)
  | inr thrown => (tr, Rejected thrown)
  end.

End TransferToL1.

(** ** useCompleteTransferToL1: the completion variant *)

Section CompleteTransferToL1.

(** What the hook closes over; [l1Config] is [undefined] or [null] when the
    wallet has no configuration. *)
Variable l1Account : Js.value.
Variable l1Config : Js.value.
(** [useL1Token()]: the token of a symbol, [undefined] when there is none. *)
Variable getL1Token : Js.value -> Js.value.
Variable getL1TokenBridgeContract : Js.value -> Js.value.

(** Modelled from the spec: whether the listener bridge drops the
    subscription once it has forwarded an event.  Section 2 has it forward
    "once", section 4.3 keeps a subscription until [removeListener()]; both
    readings are covered. *)
Variable forwards_once : bool.

(** The argument of the callback: whatever the caller passes. *)
Variable transfer : Js.value.

Definition onError (error : Js.value) : Eff unit :=
  removeListener;;
  emit (TrackError error);;
  emit (LoggerError (Js.get_opt error "message") error);;
  emit (HandleError (progressOptions.error TRANSACTION_ERROR error)).

(** The closures of the callback, with the locals [symbol], [amount] and
    [l2hash] they capture; [onWithdrawal] captures [transfer] itself. *)
Definition onTransactionHash (amount symbol : Js.value)
    (error transactionHash : Js.value) : Eff unit :=
  if Js.truthy error then onError error
  else
    emit (LoggerLog "Tx signed" [Js.obj [("transactionHash", transactionHash)]]);;
    emit (HandleProgress
            (progressOptions.withdraw
               amount symbol (stepOf WITHDRAW CompleteTransferToL1Steps))).

Definition onWithdrawal (error event : Js.value) : Eff unit :=
  if Js.truthy error then onError error
  else
    l1hash <- prop event "transactionHash";;
    emit (LoggerLog "Done" [l1hash]);;
    emit (TrackSuccess l1hash);;
    emit (HandleData (Js.spread_with transfer "l1hash" l1hash)).

(** Up to the call of [withdraw] (../api/bridge), which is given
    [onTransactionHash] as [emitter] and returns a promise. *)
Definition sendWithdrawal (symbol amount l2hash : Js.value) : Eff unit :=
  emit (TrackInitiated
          (Js.obj [("to_address", l1Account);
                   ("l2hash", l2hash);
                   ("amount", amount);
                   ("symbol", symbol)]));;
  let token := getL1Token symbol in
  bridgeAddress <- prop token "bridgeAddress";;
  decimals <- prop token "decimals";;
  let tokenBridgeContract := getL1TokenBridgeContract bridgeAddress in
  emit (CallWithdraw (mkCall l1Account tokenBridgeContract amount decimals)).

(** Where the callback stands when it gives control back. *)
Inductive Phase : Type :=
| AwaitingWithdraw   (* suspended at [await sendWithdrawal()] *)
| Returned.

(** The synchronous part of the callback: the destructuring of [transfer],
    which comes before the [try] block, then through the [try] block to the
    [await], or through the [catch] block when something threw inside. *)
Definition useCompleteTransferToL1 : Eff Phase :=
  symbol <- prop transfer "symbol";;
  amount <- prop transfer "amount";;
  l2hash <- prop transfer "l2hash";;
  try_catch
    (emit (LoggerLog "CompleteTransferToL1 called" []);;
     network <- prop l1Config "name";;
     emit (HandleProgress
             (progressOptions.waitForConfirm
                network (stepOf CONFIRM_TX CompleteTransferToL1Steps)));;
     addListener;;
     emit (LoggerLog "Calling withdraw" []);;
     sendWithdrawal symbol amount l2hash;;
     ret AwaitingWithdraw)
    (fun ex => onError ex;; ret Returned).

(** A run between two turns of the event loop. *)
Record Run : Type := mkRun {
  world : World;
  submitted : bool;   (* [withdraw] was called: the emitter may fire *)
  promise : Promise   (* the promise the callback returned *)
}.

Definition start : Run :=
  match useCompleteTransferToL1 (mkWorld [] 0) with
  | (w, Normal AwaitingWithdraw) => mkRun w true Pending
  | (w, c) => mkRun w false (settle_of c)
  end.

(** What the environment can do to a run. *)
Inductive Signal : Type :=
| TransactionHash (error transactionHash : Js.value)  (* the signing callback *)
| Withdrawal (error event : Js.value)                 (* a withdrawal log *)
| WithdrawResolved (v : Js.value)                     (* the promise of [withdraw] *)
| WithdrawRejected (reason : Js.value).

(** A callback called from outside: what it throws goes to its caller. *)
Definition call (cb : Eff unit) (w : World) : World := fst (cb w).

(** The bridge calls every callback it holds; they are all this run's
    [onWithdrawal]. *)
Fixpoint forEach (n : nat) (cb : Eff unit) (w : World) : World :=
  match n with
  | O => w
  | S n' => forEach n' cb (call cb w)
  end.

Definition is_pending (p : Promise) : bool :=
  match p with
  | Pending => true
  | _ => false
  end.

(** A local of a callback that has closures to hand out: the destructuring
    of [transfer] has passed, the local is the property read. *)
Definition local (k : string) : Js.value := Js.get_opt transfer k.

Definition deliver (r : Run) (s : Signal) : Run :=
  match s with
  | TransactionHash error transactionHash =>
      if submitted r
      then mkRun (call (onTransactionHash (local "amount") (local "symbol")
                          error transactionHash)
                       (world r))
                 (submitted r) (promise r)
      else r
  | Withdrawal error event =>
      match listeners (world r) with
      | O => r
      | S _ as n =>
          let w := forEach n (onWithdrawal error event) (world r) in
          mkRun (if forwards_once then mkWorld (trace w) 0 else w)
                (submitted r) (promise r)
      end
  | WithdrawResolved _ =>
      if is_pending (promise r) then mkRun (world r) (submitted r) Fulfilled else r
  | WithdrawRejected reason =>
      if is_pending (promise r)
      then let (w, c) := onError reason (world r) in
           mkRun w (submitted r) (settle_of c)
      else r
  end.

Definition run (signals : list Signal) : Run :=
  fold_left deliver signals start.

Inductive reachable : Run -> Prop :=
| reach_start : reachable start
| reach_deliver r s : reachable r -> reachable (deliver r s).

(** What one callback adds to the trace: nothing, or the calls of [onError],
    of the success branch of [onTransactionHash], or of the success branch of
    [onWithdrawal]. *)
Definition error_burst (error : Js.value) : list Effect :=
  [RemoveListener;
   TrackError error;
   LoggerError (Js.get_opt error "message") error;
   HandleError (progressOptions.error TRANSACTION_ERROR error)].

Definition signed_burst (transactionHash : Js.value) : list Effect :=
  [LoggerLog "Tx signed" [Js.obj [("transactionHash", transactionHash)]];
   HandleProgress
     (progressOptions.withdraw (local "amount") (local "symbol")
        (stepOf WITHDRAW CompleteTransferToL1Steps))].

Definition success_burst (l1hash : Js.value) : list Effect :=
  [LoggerLog "Done" [l1hash];
   TrackSuccess l1hash;
   HandleData (Js.spread_with transfer "l1hash" l1hash)].

Inductive Burst : list Effect -> Prop :=
| burst_none : Burst []
| burst_error error : Burst (error_burst error)
| burst_signed transactionHash : Burst (signed_burst transactionHash)
| burst_success l1hash : Burst (success_burst l1hash).

(** Whether a signal, as the run stands, reports a failure or a withdrawal to
    the hook: an error given to the signing callback, an error or an event
    given to the subscribed listener (a run subscribes one callback; an event
    that is [undefined] or [null] makes the callback throw before it records
    anything), the rejection of the awaited promise. *)
Definition reports (r : Run) (s : Signal) : nat :=
  match s with
  | TransactionHash error _ =>
      if submitted r && Js.truthy error then 1 else 0
  | Withdrawal error event =>
      if (0 <? listeners (world r))%nat
         && (Js.truthy error || negb (Js.is_nullish event))
      then 1 else 0
  | WithdrawResolved _ => 0
  | WithdrawRejected _ => if is_pending (promise r) then 1 else 0
  end.

(** The token [sendWithdrawal] looks up. *)
Definition l1Token : Js.value := getL1Token (local "symbol").

(** How far the synchronous part gets: whether it enters the [try] block
    ([transfer] can be destructured), whether it gets to [addListener]
    ([l1Config] has a [name] to read), whether it gets to the call of
    [withdraw] (the token has fields to read). *)
Definition enters : bool := negb (Js.is_nullish transfer).

Definition subscribes : bool := enters && negb (Js.is_nullish l1Config).

Definition submits : bool := subscribes && negb (Js.is_nullish l1Token).

(** The first line of the [try] block, and the trace up to the token lookup
    of [sendWithdrawal]. *)
Definition called : list Effect :=
  [LoggerLog "CompleteTransferToL1 called" []].

Definition opening : list Effect :=
  [LoggerLog "CompleteTransferToL1 called" [];
   HandleProgress
     (progressOptions.waitForConfirm
        (Js.get_opt l1Config "name") (stepOf CONFIRM_TX CompleteTransferToL1Steps));
   AddListener;
   LoggerLog "Calling withdraw" [];
   TrackInitiated
     (Js.obj [("to_address", l1Account);
              ("l2hash", local "l2hash");
              ("amount", local "amount");
              ("symbol", local "symbol")])].

(** The argument [withdraw] is called with when the token has fields. *)
Definition withdraw_call : BridgeCall :=
  mkCall l1Account
         (getL1TokenBridgeContract (Js.get_opt l1Token "bridgeAddress"))
         (local "amount") (Js.get_opt l1Token "decimals").

(** The synchronous part, path by path. *)
Definition begun : Run :=
  if Js.is_nullish transfer
  then mkRun (mkWorld [] 0) false (Rejected (Js.TypeError "symbol" transfer))
  else if Js.is_nullish l1Config
  then mkRun (mkWorld (called ++ error_burst (Js.TypeError "name" l1Config)) 0)
             false Fulfilled
  else if Js.is_nullish l1Token
  then mkRun (mkWorld (opening ++ error_burst (Js.TypeError "bridgeAddress" l1Token)) 0)
             false Fulfilled
  else mkRun (mkWorld (opening ++ [CallWithdraw withdraw_call]) 1) true Pending.

End CompleteTransferToL1.
(** ** Reading a trace *)

Definition is_success (e : Effect) : bool :=
  match e with HandleData _ => true | _ => false end.

Definition is_failure (e : Effect) : bool :=
  match e with HandleError _ => true | _ => false end.

(** A terminal outcome is delivered through [handleData] (Success) or
    through [handleError] (Failure). *)
Definition is_outcome (e : Effect) : bool := is_success e || is_failure e.

Definition is_track_initiated (e : Effect) : bool :=
  match e with TrackInitiated _ => true | _ => false end.

Definition is_track_success (e : Effect) : bool :=
  match e with TrackSuccess _ => true | _ => false end.

Definition is_track_error (e : Effect) : bool :=
  match e with TrackError _ => true | _ => false end.

Definition is_track_terminal (e : Effect) : bool :=
  is_track_success e || is_track_error e.

Definition is_progress (e : Effect) : bool :=
  match e with HandleProgress _ => true | _ => false end.

Definition is_chain_call (e : Effect) : bool :=
  match e with
  | CallInitiateWithdraw _ | CallWaitForTransaction _ _ | CallWithdraw _ => true
  | _ => false
  end.

Definition is_add_listener (e : Effect) : bool :=
  match e with AddListener => true | _ => false end.

Definition is_remove_listener (e : Effect) : bool :=
  match e with RemoveListener => true | _ => false end.

Definition count (p : Effect -> bool) (tr : list Effect) : nat :=
  List.length (filter p tr).

(** The steps of the progress events of a trace, in the order of emission. *)
Definition step_of (p : progressOptions.t) : list Z :=
  match p with
  | progressOptions.waitForConfirm _ st
  | progressOptions.initiateWithdraw _ _ st
  | progressOptions.withdraw _ _ st => [st]
  | progressOptions.error _ _ => []
  end.

Fixpoint progress_steps (tr : list Effect) : list Z :=
  match tr with
  | [] => []
  | HandleProgress p :: rest => step_of p ++ progress_steps rest
  | _ :: rest => progress_steps rest
  end.

(** The number of Success outcomes delivered after the first Failure. *)
Fixpoint successes_after_failure (tr : list Effect) : nat :=
  match tr with
  | [] => 0
  | HandleError _ :: rest => count is_success rest
  | _ :: rest => successes_after_failure rest
  end.

Fixpoint strictly_increasing (steps : list Z) : bool :=
  match steps with
  | a :: (b :: _) as rest => (a <? b)%Z && strictly_increasing rest
  | _ => true
  end.

(** The kinds of the Failure outcomes of a trace. *)
Fixpoint failure_kinds (tr : list Effect) : list TransferError :=
  match tr with
  | [] => []
  | HandleError (progressOptions.error kind _) :: rest => kind :: failure_kinds rest
  | _ :: rest => failure_kinds rest
  end.

(** Exactly one terminal outcome and exactly one terminal tracking record. *)
Definition single_outcome (tr : list Effect) : Prop :=
  count is_outcome tr = 1 /\ count is_track_terminal tr = 1.

(** By the time an outcome has been delivered, [removeListener] was called. *)
Definition listener_removed_at_outcome (tr : list Effect) : Prop :=
  1 <= count is_outcome tr -> In RemoveListener tr.

Definition is_tracking (e : Effect) : bool :=
  is_track_initiated e || is_track_terminal e.

(** A failed precondition check: a Failure of the given kind and nothing
    else, no progress event, no tracking record, no chain call. *)
Definition rejected_upfront (kind : TransferError) (tr : list Effect) : Prop :=
  failure_kinds tr = [kind] /\
  count is_progress tr = 0 /\
  count is_tracking tr = 0 /\
  count is_chain_call tr = 0.


(** ** A sample environment *)

Definition sample_token : Js.value :=
  Js.obj [("decimals", Js.num 18%float); ("bridgeAddress", Js.str "0xb21d9e")].

Definition sample_selected : Js.value :=
  Js.obj [("decimals", Js.num 18%float);
          ("bridgeAddress", Js.str "0x073314");
          ("name", Js.str "Ether");
          ("symbol", Js.str "ETH")].

Definition sample_action : Js.value := Js.num 2%float.

Definition sample_transfer : Js.value :=
  Js.obj [("type", sample_action);
          ("sender", Js.str "0x04a0");
          ("recipient", Js.str "0x71c7");
          ("name", Js.str "Ether");
          ("symbol", Js.str "ETH");
          ("amount", Js.num 5%float);
          ("l2hash", Js.str "0xabc")].

Definition sample_config (network : string) : Js.value :=
  Js.obj [("name", Js.str network)].

Definition sample_contract (address : Js.value) : Js.value :=
  Js.obj [("address", address)].

Definition sample_receipt : Js.value :=
  Js.obj [("transaction_hash", Js.str "0xabc")].

Definition sample_event : Js.value :=
  Js.obj [("transactionHash", Js.str "0x5e1f")].

(** A completion run on the sample transfer. *)
Definition sample_complete (getL1Token : Js.value -> Js.value) (forwards_once : bool)
    (signals : list Signal) : Run :=
  run (Js.str "0x71c7") (sample_config "Ethereum") getL1Token sample_contract
      forwards_once sample_transfer signals.

(** An initiation run of the sample token and amount. *)
Definition sample_initiate (l1Account l2Account : Js.value)
    (initiateWithdraw : BridgeCall -> Settle)
    (waitForTransaction : Js.value -> TransactionStatus -> Settle)
    : list Effect * Promise :=
  runTransferToL1 l1Account l2Account (sample_config "Goerli") sample_selected
                  sample_contract sample_action initiateWithdraw
                  waitForTransaction (Js.num 5%float).

(** ** The decimal helpers

    A JavaScript number is an IEEE 754 binary64 value: Rocq's [float], with
    the same [*], [/] and [==]. *)

Module parser.

Local Open Scope float_scope.

Definition TEN_BASE : Z := 10.
Definition DEFAULT_DECIMALS : N := 18.

(** [Math.pow(base, exponent)] for a whole base and a whole, non-negative
    exponent: the power, rounded to the nearest binary64 value.  (A number
    of decimals is such an exponent; the powers of ten up to [10^22] are
    binary64 values, so nothing is rounded there.) *)
Definition Math_pow (base : Z) (exponent : N) : float :=
  SF2Prim (binary_normalize prec emax (base ^ Z.of_N exponent) 0 false).

Definition powerOf (decimals : N) : float := Math_pow TEN_BASE decimals.

(** A default parameter: [None] is the omitted (or [undefined]) argument. *)
Definition or_default (decimals : option N) : N :=
  match decimals with
  | Some d => d
  | None => DEFAULT_DECIMALS
  end.

Definition toDecimals (value : float) (decimals : option N) : float :=
  value * powerOf (or_default decimals).

Definition fromDecimals (value : float) (decimals : option N) : float :=
  value / powerOf (or_default decimals).

(** [a == b] on numbers. *)
Definition equals (a b : float) : bool := PrimFloat.eqb a b.

(** The whole number [z] as a number. *)
Definition of_Z (z : Z) : float :=
  SF2Prim (binary_normalize prec emax z 0 false).

End parser.

(** The binary64 value of [+/- m * 2^z], for [m] of at most 53 digits: the
    mantissa is brought to 53 digits. *)
Definition canon (s : bool) (m : positive) (z : Z) : spec_float :=
  let free := (53 - Zpos (digits2_pos m))%Z in
  S754_finite s (Z.to_pos (Zpos m * 2 ^ free)) (z - free).

(** ** More ways to read a run *)

Definition is_submit_call (e : Effect) : bool :=
  match e with CallInitiateWithdraw _ => true | _ => false end.

Definition is_wait_call (e : Effect) : bool :=
  match e with CallWaitForTransaction _ _ => true | _ => false end.

(** The promise of [withdraw] settles. *)
Definition is_settle (s : Signal) : bool :=
  match s with
  | WithdrawResolved _ | WithdrawRejected _ => true
  | _ => false
  end.

(** The signing callback is called without an error. *)
Definition is_signed (s : Signal) : bool :=
  match s with
  | TransactionHash error _ => negb (Js.truthy error)
  | _ => false
  end.

(** The error a signal carries, if it carries one. *)
Definition signalled_error (s : Signal) : option Js.value :=
  match s with
  | TransactionHash error _ | Withdrawal error _ =>
      if Js.truthy error then Some error else None
  | WithdrawRejected reason => Some reason
  | WithdrawResolved _ => None
  end.


(** What a signal makes a run of one subscription add to its trace. *)
Definition reaction (transfer : Js.value) (r : Run) (s : Signal) : list Effect :=
  match s with
  | TransactionHash error transactionHash =>
      if submitted r
      then if Js.truthy error then error_burst error
           else signed_burst transfer transactionHash
      else []
  | Withdrawal error event =>
      match listeners (world r) with
      | O => []
      | S _ =>
          if Js.truthy error then error_burst error
          else match Js.get event "transactionHash" with
               | inl l1hash => success_burst transfer l1hash
               | inr _ => []
               end
      end
  | WithdrawResolved _ => []
  | WithdrawRejected reason =>
      if is_pending (promise r) then error_burst reason else []
  end.

(** Counting over a trace that is known up to its tail. *)
Ltac tally := unfold count in *; cbn; lia.

(** * Properties *)

(** ** Traces *)

Lemma count_app p (a b : list Effect) : count p (a ++ b) = count p a + count p b.
Proof. unfold count. now rewrite filter_app, length_app. Qed.

Lemma count_outcome tr : count is_outcome tr = count is_success tr + count is_failure tr.
Proof.
  unfold count. induction tr as [|e tr IH]; [reflexivity|].
  destruct e; cbn; rewrite ?IH; lia.
Qed.

Lemma count_track_terminal tr :
  count is_track_terminal tr = count is_track_success tr + count is_track_error tr.
Proof.
  unfold count. induction tr as [|e tr IH]; [reflexivity|].
  destruct e; cbn; rewrite ?IH; lia.
Qed.

Lemma successes_after_failure_app a b :
  successes_after_failure (a ++ b) =
  match count is_failure a with
  | O => successes_after_failure b
  | S _ => successes_after_failure a + count is_success b
  end.
Proof.
  induction a as [|e a IH]; [reflexivity|].
  destruct e; cbn [app successes_after_failure]; try exact IH.
  now rewrite count_app.
Qed.

Lemma failure_kinds_app a b : failure_kinds (a ++ b) = failure_kinds a ++ failure_kinds b.
Proof.
  induction a as [|e a IH]; [reflexivity|].
  destruct e as [| | | |p| | | | | | | |]; cbn; try exact IH.
  destruct p; cbn; try exact IH. now rewrite IH.
Qed.

(** An element that [p] singles out sits at one place only. *)
Lemma unique_split p (l1 l3 : list Effect) x y l2 l4 :
  l1 ++ x :: l2 = l3 ++ y :: l4 ->
  p x = true -> count p l3 = 0 -> count p l4 = 0 ->
  l1 = l3.
Proof.
  revert l3. induction l1 as [|a l1 IH]; intros [|z l3] E Hx H3 H4; cbn in E.
  - reflexivity.
  - injection E as -> _. unfold count in H3. cbn in H3. rewrite Hx in H3. discriminate.
  - injection E as _ <-. rewrite count_app in H4. unfold count in H4. cbn in H4.
    rewrite Hx in H4. cbn in H4. lia.
  - injection E as -> E. f_equal. apply IH; auto.
    unfold count in *. cbn in H3. destruct (p z); cbn in H3; [discriminate|exact H3].
Qed.

(** ** The initiation variant *)

Section TransferToL1_facts.

Variables l1Account l2Account : Js.value.
Variable l2Config : Js.value.
Variable selectedToken : Js.value.
Variable getTokenBridgeContract : Js.value -> Js.value.
Variable TRANSFER_TO_L1 : Js.value.
Variable initiateWithdraw : BridgeCall -> Settle.
Variable waitForTransaction : Js.value -> TransactionStatus -> Settle.
Variable amount : Js.value.

Local Abbreviation run1 :=
  (runTransferToL1 l1Account l2Account l2Config selectedToken
                   getTokenBridgeContract TRANSFER_TO_L1 initiateWithdraw
                   waitForTransaction amount).
Local Abbreviation call1 :=
  (initiate_call l1Account selectedToken getTokenBridgeContract amount).
Local Abbreviation submitting1 :=
  (submitting l1Account l2Account l2Config selectedToken
              getTokenBridgeContract amount).
Local Abbreviation waiting1 := (waiting selectedToken amount).
Local Abbreviation finishing1 :=
  (finishing l1Account l2Account selectedToken TRANSFER_TO_L1 amount).

(** The callback, path by path. *)
Lemma runTransferToL1_eq :
  run1 =
  if Js.is_nullish selectedToken
  then ([], Rejected (Js.TypeError "decimals" selectedToken))
  else if Js.is_nullish l2Config
  then catching entering (Js.TypeError "name" l2Config)
  else
    match initiateWithdraw call1 with
    | NeverSettles => (submitting1, Pending)
    | Rejects reason => catching submitting1 reason
    | Resolves receipt =>
        match Js.get receipt "transaction_hash" with
        | inr thrown => catching submitting1 thrown
        | inl l2hash =>
            match waitForTransaction l2hash RECEIVED with
            | NeverSettles => (submitting1 ++ waiting1 l2hash, Pending)
            | Rejects reason => catching (submitting1 ++ waiting1 l2hash) reason
            | Resolves _ =>
                (submitting1 ++ waiting1 l2hash ++ finishing1 l2hash, Fulfilled)
            end
        end
    end.
Proof.
  assert (Hget : forall v k,
             Js.get v k = if Js.is_nullish v then inr (Js.TypeError k v)
                          else inl (Js.get_opt v k))
    by (intros [] k; reflexivity).
  unfold runTransferToL1, useTransferToL1, sendInitiateWithdraw, catching,
    submitting, waiting, finishing, initiated_record, initiate_call, entering.
  unfold try_catch, bind, emit, prop.
  rewrite !(Hget selectedToken).
  destruct (Js.is_nullish selectedToken); [reflexivity|].
  cbn [ret trace listeners app]. rewrite (Hget l2Config).
  destruct (Js.is_nullish l2Config); [reflexivity|].
  cbn [ret trace listeners app].
  destruct (initiateWithdraw _) as [receipt|reason|]; cbn.
  - destruct (Js.get receipt "transaction_hash") as [l2hash|thrown]; cbn.
    + destruct (waitForTransaction l2hash RECEIVED) as [v|reason|]; cbn;
        [reflexivity| |reflexivity].
      destruct (Js.get reason "message"); reflexivity.
    + destruct (Js.get thrown "message"); reflexivity.
  - destruct (Js.get reason "message"); reflexivity.
  - reflexivity.
Qed.

(** The [catch] block handles what has a [message] to read. *)
Lemma catching_eq tr ex :
  catching tr ex =
  if Js.is_nullish ex
  then (tr, Rejected (Js.TypeError "message" ex))
  else (tr ++ [LoggerError (Js.get_opt ex "message") ex;
               TrackError ex;
               HandleError (progressOptions.error TRANSACTION_ERROR ex)],
        Fulfilled).
Proof. destruct ex; reflexivity. Qed.

Lemma TypeError_not_nullish k v : Js.is_nullish (Js.TypeError k v) = false.
Proof. reflexivity. Qed.

(** The paths of the callback, one goal each. *)
Ltac paths :=
  rewrite runTransferToL1_eq;
  destruct (Js.is_nullish selectedToken) eqn:Hsel;
  [|destruct (Js.is_nullish l2Config) eqn:Hcfg;
    [|destruct (initiateWithdraw call1) as [receipt|reason|] eqn:Hsubmit;
      [destruct (Js.get receipt "transaction_hash") as [l2hash|thrown] eqn:Hhash;
       [destruct (waitForTransaction l2hash RECEIVED) as [v|reason|] eqn:Hwait|]
      | | ]]];
  rewrite ?catching_eq, ?TypeError_not_nullish;
  try match goal with
      | |- context [Js.is_nullish ?x] => destruct (Js.is_nullish x) eqn:Hnull
      end;
  cbn [fst snd].

(** A run that gets to the submit call opens the same way whatever the chain
    answers, and records the initiated event once, right before the call. *)
Lemma initiated_once_before_submit :
  Js.is_nullish selectedToken = false ->
  Js.is_nullish l2Config = false ->
  exists rest,
    fst run1 = submitting1 ++ rest /\
    count is_track_initiated rest = 0 /\
    count is_track_initiated (fst run1) = 1.
Proof.
  intros Hs Hc. paths; try discriminate;
    first [ eexists; split; [reflexivity|]
          | eexists; split; [rewrite <- app_assoc; reflexivity|]
          | exists []; split; [now rewrite app_nil_r|] ];
    unfold submitting, waiting, finishing; rewrite ?count_app; split; tally.
Qed.

(** A rejection with something to read a [message] from is caught, recorded
    once and delivered as a Failure with its cause; the callback returns. *)
Lemma rejection_caught reason :
  Js.is_nullish selectedToken = false ->
  Js.is_nullish l2Config = false ->
  Js.is_nullish reason = false ->
  initiateWithdraw call1 = Rejects reason ->
  run1 =
  (submitting1 ++ [LoggerError (Js.get_opt reason "message") reason;
                   TrackError reason;
                   HandleError (progressOptions.error TRANSACTION_ERROR reason)],
   Fulfilled).
Proof.
  intros Hs Hc Hn Hr. now rewrite runTransferToL1_eq, Hs, Hc, Hr, catching_eq, Hn.
Qed.

(** X14.  How a run of the initiation variant can end.  A callback that
    returned has delivered exactly one outcome with its tracking record; one
    that is still waiting has delivered none; and its promise rejects, without
    any outcome or record, in two cases only: with the TypeError of
    destructuring a [selectedToken] that is [undefined] or [null], before
    anything was done, or with the TypeError of reading [message] from an
    [undefined] or [null] rejection reason in the [catch] block. *)
Lemma initiation_outcomes :
  match snd run1 with
  | Fulfilled => single_outcome (fst run1)
  | Pending => count is_outcome (fst run1) = 0
  | Rejected thrown =>
      count is_outcome (fst run1) = 0 /\
      count is_track_terminal (fst run1) = 0 /\
      ((Js.is_nullish selectedToken = true /\
        thrown = Js.TypeError "decimals" selectedToken /\
        fst run1 = []) \/
       (Js.is_nullish selectedToken = false /\
        exists reason,
          Js.is_nullish reason = true /\ thrown = Js.TypeError "message" reason))
  end.
Proof.
  paths; unfold single_outcome, entering, submitting, waiting, finishing;
    rewrite ?count_app;
    repeat match goal with |- _ /\ _ => split end;
    try tally;
    first [ left; repeat split; reflexivity
          | right; split; [reflexivity|]; eexists; split; [eassumption|reflexivity] ].
Qed.

(** C7.  A run of the initiation variant that delivers a Success has emitted
    exactly two progress events: the one of CONFIRM_TX, then the one of
    INITIATE_WITHDRAW.  Their steps are the steps of the flow in the order of
    its list, each once: strictly increasing, none skipped, none repeated. *)
Theorem progress_in_step_order :
  count is_success (fst run1) = 1 ->
  filter is_progress (fst run1) =
    [HandleProgress
       (progressOptions.waitForConfirm
          (Js.get_opt l2Config "name") (stepOf CONFIRM_TX TransferToL1Steps));
     HandleProgress
       (progressOptions.initiateWithdraw
          amount (Js.get_opt selectedToken "symbol")
          (stepOf INITIATE_WITHDRAW TransferToL1Steps))] /\
  progress_steps (fst run1) =
    map (fun st => stepOf st TransferToL1Steps) TransferToL1Steps /\
  strictly_increasing (progress_steps (fst run1)) = true /\
  NoDup (progress_steps (fst run1)).
Proof.
  paths; unfold entering, submitting, waiting, finishing; rewrite ?count_app;
    intros H; try (exfalso; revert H; tally).
  cbn. repeat split; try reflexivity.
  repeat constructor; cbn; intuition discriminate.
Qed.

End TransferToL1_facts.

(** C6 (at the failing input).  When the submit call is made and rejects
    with [undefined], reading [ex.message] in the [catch] block throws: the
    callback records no error, delivers no Failure, and its promise rejects
    with the TypeError. *)
Theorem nullish_rejection_escapes_catch
    l1Account l2Account l2Config selectedToken getTokenBridgeContract
    TRANSFER_TO_L1 waitForTransaction amount :
  Js.is_nullish selectedToken = false ->
  Js.is_nullish l2Config = false ->
  let r := runTransferToL1 l1Account l2Account l2Config selectedToken
             getTokenBridgeContract TRANSFER_TO_L1
             (fun _ => Rejects Js.undefined) waitForTransaction amount in
  snd r = Rejected (Js.TypeError "message" Js.undefined) /\
  count is_track_error (fst r) = 0 /\
  count is_failure (fst r) = 0.
Proof.
  intros Hs Hc. cbv zeta. rewrite runTransferToL1_eq, Hs, Hc, catching_eq.
  cbn [Js.is_nullish fst snd]. repeat split; tally.
Qed.

(** C10 (at the failing input).  When the submit call is made and the wait
    for the transaction rejects with [null], the run has recorded the
    initiated event once, before the submit call, and then ends without an
    error record: the [catch] block throws at [ex.message] before it reaches
    [trackError]. *)
Theorem initiated_without_error_record
    l1Account l2Account l2Config selectedToken getTokenBridgeContract
    TRANSFER_TO_L1 amount :
  Js.is_nullish selectedToken = false ->
  Js.is_nullish l2Config = false ->
  let r := runTransferToL1 l1Account l2Account l2Config selectedToken
             getTokenBridgeContract TRANSFER_TO_L1
             (fun _ => Resolves sample_receipt)
             (fun _ _ => Rejects Js.null) amount in
  fst r =
    submitting l1Account l2Account l2Config selectedToken
               getTokenBridgeContract amount ++
    waiting selectedToken amount (Js.str "0xabc") /\
  count is_track_initiated (fst r) = 1 /\
  count is_track_error (fst r) = 0 /\
  snd r = Rejected (Js.TypeError "message" Js.null).
Proof.
  intros Hs Hc. cbv zeta. rewrite runTransferToL1_eq, Hs, Hc.
  cbn [sample_receipt Js.get Js.field].
  cbn [String.eqb Ascii.eqb Bool.eqb]. rewrite catching_eq.
  cbn [Js.is_nullish fst snd]. repeat split; tally.
Qed.

(** ** The completion variant *)

Section CompleteTransferToL1_facts.

Variable l1Account : Js.value.
Variable l1Config : Js.value.
Variable getL1Token : Js.value -> Js.value.
Variable getL1TokenBridgeContract : Js.value -> Js.value.
Variable forwards_once : bool.
Variable transfer : Js.value.

Local Abbreviation start_ :=
  (start l1Account l1Config getL1Token getL1TokenBridgeContract transfer).
Local Abbreviation begun_ :=
  (begun l1Account l1Config getL1Token getL1TokenBridgeContract transfer).
Local Abbreviation deliver_ := (deliver forwards_once transfer).
Local Abbreviation run_ :=
  (run l1Account l1Config getL1Token getL1TokenBridgeContract
       forwards_once transfer).
Local Abbreviation reachable_ :=
  (reachable l1Account l1Config getL1Token getL1TokenBridgeContract
             forwards_once transfer).
Local Abbreviation opening_ := (opening l1Account l1Config transfer).
Local Abbreviation withdraw_call_ :=
  (withdraw_call l1Account getL1Token getL1TokenBridgeContract transfer).
Local Abbreviation Burst_ := (Burst transfer).
Local Abbreviation token_ := (l1Token getL1Token transfer).
Local Abbreviation enters_ := (enters transfer).
Local Abbreviation subscribes_ := (subscribes l1Config transfer).
Local Abbreviation submits_ := (submits l1Config getL1Token transfer).

Lemma onError_eq error w :
  onError error w = (mkWorld (trace w ++ error_burst error) 0, Normal tt).
Proof.
  unfold onError, removeListener, emit, bind; cbn.
  now rewrite <- !app_assoc.
Qed.

Lemma onTransactionHash_eq error transactionHash w :
  onTransactionHash (local transfer "amount") (local transfer "symbol")
                    error transactionHash w =
  if Js.truthy error
  then (mkWorld (trace w ++ error_burst error) 0, Normal tt)
  else (mkWorld (trace w ++ signed_burst transfer transactionHash) (listeners w),
        Normal tt).
Proof.
  unfold onTransactionHash. destruct (Js.truthy error).
  - apply onError_eq.
  - unfold emit, bind; cbn. now rewrite <- !app_assoc.
Qed.

Lemma onWithdrawal_eq error event w :
  onWithdrawal transfer error event w =
  if Js.truthy error
  then (mkWorld (trace w ++ error_burst error) 0, Normal tt)
  else match Js.get event "transactionHash" with
       | inl l1hash =>
           (mkWorld (trace w ++ success_burst transfer l1hash) (listeners w),
            Normal tt)
       | inr ex => (w, Throw ex)
       end.
Proof.
  unfold onWithdrawal. destruct (Js.truthy error).
  - apply onError_eq.
  - unfold prop, emit, bind.
    destruct (Js.get event "transactionHash"); cbn; [|reflexivity].
    now rewrite <- !app_assoc.
Qed.

(** The synchronous part: the promise rejects when [transfer] cannot be
    destructured; the error path is taken when [l1Config] or the token has
    nothing to read; otherwise it ends awaiting [withdraw], with the listener
    in place. *)
Lemma start_eq : start_ = begun_.
Proof.
  assert (Hget : forall v k,
             Js.get v k = if Js.is_nullish v then inr (Js.TypeError k v)
                          else inl (Js.get_opt v k))
    by (intros [] k; reflexivity).
  unfold start, begun, useCompleteTransferToL1, sendWithdrawal, withdraw_call,
    opening, called, l1Token, local.
  unfold try_catch, bind, emit, prop, addListener.
  rewrite !(Hget transfer).
  destruct (Js.is_nullish transfer); [reflexivity|].
  cbn [ret trace listeners app]. rewrite (Hget l1Config).
  destruct (Js.is_nullish l1Config); [reflexivity|].
  cbn [ret trace listeners app].
  rewrite !(Hget (getL1Token _)).
  destruct (Js.is_nullish (getL1Token _)); reflexivity.
Qed.

Lemma reachable_fold signals : forall r, reachable_ r -> reachable_ (fold_left deliver_ signals r).
Proof.
  induction signals as [|s signals IH]; intros r Hr; [exact Hr|].
  cbn. apply IH. now constructor.
Qed.

Lemma reachable_run signals : reachable_ (run_ signals).
Proof. apply reachable_fold. constructor. Qed.

(** One signal adds one burst; the number of callbacks never grows, a Failure
    leaves none, and a Success needs one. *)
Lemma deliver_burst r s :
  listeners (world r) <= 1 ->
  exists d,
    Burst_ d /\
    trace (world (deliver_ r s)) = trace (world r) ++ d /\
    listeners (world (deliver_ r s)) <= listeners (world r) /\
    (1 <= count is_failure d -> listeners (world (deliver_ r s)) = 0) /\
    (1 <= count is_success d -> listeners (world r) = 1).
Proof.
  destruct r as [[tr n] sb pr]; cbn [world listeners trace]; intros Hl.
  assert (Hnone : exists d, Burst_ d /\ tr = tr ++ d /\ n <= n /\
            (1 <= count is_failure d -> n = 0) /\
            (1 <= count is_success d -> n = 1)).
  { exists []. rewrite app_nil_r.
    repeat match goal with |- _ /\ _ => split end;
      [constructor | reflexivity | lia | cbn; lia ..]. }
  destruct s as [error h|error event|v|reason];
    cbn [deliver world listeners trace submitted promise].
  - destruct sb; [|exact Hnone].
    unfold call. rewrite onTransactionHash_eq. destruct (Js.truthy error).
    + exists (error_burst error).
      repeat match goal with |- _ /\ _ => split end;
        [constructor | reflexivity | cbn; lia ..].
    + exists (signed_burst transfer h).
      repeat match goal with |- _ /\ _ => split end;
        [constructor | reflexivity | cbn; lia ..].
  - destruct n as [|[|n]]; [exact Hnone|clear Hnone|lia].
    cbn [forEach]. unfold call. rewrite onWithdrawal_eq.
    destruct (Js.truthy error).
    + exists (error_burst error).
      repeat match goal with |- _ /\ _ => split end;
        [constructor | destruct forwards_once; reflexivity
        | destruct forwards_once; cbn; lia ..].
    + destruct (Js.get event "transactionHash") as [l1hash|ex].
      * exists (success_burst transfer l1hash).
        repeat match goal with |- _ /\ _ => split end;
          [constructor | destruct forwards_once; reflexivity
          | destruct forwards_once; cbn; lia ..].
      * exists []. rewrite app_nil_r.
        repeat match goal with |- _ /\ _ => split end;
          [constructor | destruct forwards_once; reflexivity
          | destruct forwards_once; cbn; lia ..].
  - destruct (is_pending pr); exact Hnone.
  - destruct (is_pending pr); [|exact Hnone].
    rewrite onError_eq. exists (error_burst reason).
    repeat match goal with |- _ /\ _ => split end;
      [constructor | reflexivity | cbn; lia ..].
Qed.

Lemma deliver_outcomes r s :
  listeners (world r) <= 1 ->
  count is_outcome (trace (world (deliver_ r s))) =
  count is_outcome (trace (world r)) + reports r s.
Proof.
  destruct r as [[tr n] sb pr]; cbn [world listeners trace]; intros Hl.
  destruct s as [error h|error event|v|reason];
    cbn [deliver reports world listeners trace submitted promise].
  - destruct sb; [|tally].
    unfold call. rewrite onTransactionHash_eq.
    destruct (Js.truthy error); cbn [fst trace world]; rewrite count_app; tally.
  - destruct n as [|[|n]]; [tally| |lia].
    cbn [forEach]. unfold call. rewrite onWithdrawal_eq.
    destruct (Js.truthy error).
    + destruct forwards_once; cbn [fst trace world]; rewrite count_app; tally.
    + destruct event; cbn [Js.get Js.is_nullish];
        destruct forwards_once; cbn [fst trace world]; rewrite ?count_app; tally.
  - destruct (is_pending pr); tally.
  - destruct (is_pending pr) eqn:E; [|tally].
    rewrite onError_eq. cbn [world trace]. rewrite count_app; tally.
Qed.

(** A signal changes neither [submitted] nor a settled promise. *)
Lemma deliver_state r s :
  submitted (deliver_ r s) = submitted r /\
  (is_pending (promise (deliver_ r s)) = true -> is_pending (promise r) = true).
Proof.
  destruct r as [[tr n] sb pr]; destruct s as [error h|error event|v|reason];
    cbn [deliver world listeners trace submitted promise].
  - destruct sb; split; auto.
  - destruct n; split; auto.
  - destruct (is_pending pr) eqn:E; cbn [submitted promise]; split; auto;
      intros; congruence.
  - destruct (is_pending pr) eqn:E; [rewrite onError_eq|];
      cbn [submitted promise]; split; auto; intros; congruence.
Qed.

Lemma run_snoc signals s : run_ (signals ++ [s]) = deliver_ (run_ signals) s.
Proof. unfold run. now rewrite fold_left_app. Qed.

(** What holds of every run, whatever the environment signals. *)
Lemma reachable_invariant r :
  reachable_ r ->
  listeners (world r) <= 1 /\
  (1 <= count is_failure (trace (world r)) -> listeners (world r) = 0) /\
  count is_track_success (trace (world r)) = count is_success (trace (world r)) /\
  count is_track_error (trace (world r)) = count is_failure (trace (world r)) /\
  count is_remove_listener (trace (world r)) = count is_failure (trace (world r)) /\
  successes_after_failure (trace (world r)) = 0 /\
  Forall (eq TRANSACTION_ERROR) (failure_kinds (trace (world r))) /\
  submitted r = submits_ /\
  listeners (world r) <= (if submits_ then 1 else 0) /\
  (is_pending (promise r) = true -> submits_ = true) /\
  exists more,
    trace (world r) = trace (world start_) ++ more /\
    count is_chain_call more = 0 /\
    count is_add_listener more = 0 /\
    count is_track_initiated more = 0.
Proof.
  induction 1 as [|r s Hr IH].
  - rewrite start_eq. unfold begun, submits, subscribes, enters.
    fold token_.
    destruct (Js.is_nullish transfer); [|destruct (Js.is_nullish l1Config);
      [|destruct (Js.is_nullish token_)]];
      repeat match goal with |- _ /\ _ => split end;
      try (exists []; split; [now rewrite app_nil_r|repeat split; reflexivity]);
      cbn; try lia; try reflexivity; try discriminate; repeat constructor.
  - destruct IH as (Hl & Hf & Hts & Hte & Hrm & Hsf & Hk & Hsb & Hls & Hp
                    & more & Hop & Hch & Had & Hin).
    destruct (deliver_burst r s Hl) as (d & Hd & Ht & Hl' & Hfd & Hsd).
    destruct (deliver_state r s) as (Hsb' & Hp').
    rewrite Ht, !count_app, successes_after_failure_app, failure_kinds_app.
    repeat match goal with |- _ /\ _ => split end.
    + lia.
    + intros Hc. destruct (count is_failure d) eqn:E; [lia|]. apply Hfd. lia.
    + destruct Hd; cbn; lia.
    + destruct Hd; cbn; lia.
    + destruct Hd; cbn; lia.
    + destruct (count is_failure (trace (world r))) eqn:E.
      * destruct Hd; reflexivity.
      * destruct (count is_success d) eqn:E'; [lia|].
        assert (listeners (world r) = 0) by (apply Hf; lia).
        assert (listeners (world r) = 1) by (apply Hsd; lia). lia.
    + apply Forall_app. split; [exact Hk|]. destruct Hd; repeat constructor.
    + now rewrite Hsb'.
    + lia.
    + auto.
    + exists (more ++ d). split.
      * now rewrite Hop, app_assoc.
      * rewrite !count_app. destruct Hd; repeat split; tally.
Qed.

(** A run whose synchronous part did not get to the call of [withdraw] is
    over: it has handed out no callback and its promise is settled, so no
    signal changes it. *)
Lemma run_over signals : submits_ = false -> run_ signals = start_.
Proof.
  intros Hs. induction signals as [|s signals IH] using rev_ind; [reflexivity|].
  rewrite run_snoc, IH.
  destruct (reachable_invariant _ (reach_start l1Account l1Config getL1Token
              getL1TokenBridgeContract forwards_once transfer))
    as (_ & _ & _ & _ & _ & _ & _ & Hsb & Hls & Hp & _).
  rewrite Hs in *.
  destruct start_ as [[tr n] sb pr]; cbn [world listeners submitted promise] in *.
  assert (n = 0) as -> by lia. subst sb.
  destruct s; cbn [deliver world listeners submitted promise]; try reflexivity;
    destruct (is_pending pr); first [discriminate (Hp eq_refl)|reflexivity].
Qed.

(** C1 (as amended).  In every run of the completion variant each outcome
    comes with one TrackingSink record of its kind (as many success records
    as Success outcomes, as many error records as Failure outcomes) and no
    Success is delivered after a Failure.  The outcomes are not limited to
    one.  The synchronous part delivers one Failure when it enters the [try]
    block and does not get to the call of [withdraw] ([l1Config] or the token
    is missing), and none otherwise; after that every signal that reports an
    error or a withdrawal to a callback the run still has (an error of the
    signing callback, an error or an event of the subscribed listener, the
    rejection of the awaited submit call) delivers one more outcome, and
    there is no such signal when [withdraw] was not called.  Errors are not
    deduplicated. *)
Theorem completion_outcomes_follow_signals signals s :
  let tr := trace (world (run_ signals)) in
  count is_track_success tr = count is_success tr /\
  count is_track_error tr = count is_failure tr /\
  count is_track_terminal tr = count is_outcome tr /\
  successes_after_failure tr = 0 /\
  count is_outcome (trace (world (run_ []))) =
    (if enters_ && negb submits_ then 1 else 0) /\
  count is_outcome (trace (world (run_ (signals ++ [s])))) =
    count is_outcome tr + reports (run_ signals) s /\
  reports (run_ signals) s <= (if submits_ then 1 else 0).
Proof.
  cbv zeta.
  destruct (reachable_invariant _ (reachable_run signals))
    as (Hl & _ & Hts & Hte & _ & Hsf & _ & Hsb & Hls & Hp & _).
  repeat match goal with |- _ /\ _ => split end; auto.
  - rewrite count_track_terminal, count_outcome. lia.
  - unfold run; cbn [fold_left]. rewrite start_eq.
    unfold begun, submits, subscribes, enters. fold token_.
    destruct (Js.is_nullish transfer); [|destruct (Js.is_nullish l1Config);
      [|destruct (Js.is_nullish token_)]]; reflexivity.
  - rewrite run_snoc. now apply deliver_outcomes.
  - destruct s as [error h|error event|v|reason]; cbn [reports].
    + rewrite Hsb. destruct submits_, (Js.truthy error); cbn; lia.
    + destruct submits_.
      * destruct (_ && _); lia.
      * assert (listeners (world (run_ signals)) = 0) as -> by lia. cbn. lia.
    + lia.
    + destruct (is_pending _); [rewrite Hp by reflexivity|]; lia.
Qed.

(** C3 (as amended).  In the completion variant the error path, [onError],
    calls [removeListener] first and records the failure after it; the
    success branch of the listener callback calls no [removeListener] and
    leaves the subscription as it is.  So in every run [removeListener] is
    called once per Failure and nowhere else, and after a Failure no callback
    of the run is subscribed.  [addListener] is called once in a run that
    gets to it and never in a run that does not ([transfer] or [l1Config] is
    missing; with [l1Config] missing the error path still calls
    [removeListener], with nothing registered), so a run has at most one
    callback subscribed. *)
Theorem listener_removed_on_error_path signals :
  let r := run_ signals in
  (forall error w,
     onError error w =
     (mkWorld (trace w ++
               [RemoveListener;
                TrackError error;
                LoggerError (Js.get_opt error "message") error;
                HandleError (progressOptions.error TRANSACTION_ERROR error)]) 0,
      Normal tt)) /\
  (forall error event w,
     Js.truthy error = false ->
     count is_remove_listener (trace (call (onWithdrawal transfer error event) w)) =
       count is_remove_listener (trace w) /\
     listeners (call (onWithdrawal transfer error event) w) = listeners w) /\
  count is_remove_listener (trace (world r)) = count is_failure (trace (world r)) /\
  (1 <= count is_failure (trace (world r)) -> listeners (world r) = 0) /\
  count is_add_listener (trace (world r)) = (if subscribes_ then 1 else 0) /\
  count is_remove_listener (trace (world (run_ []))) =
    (if enters_ && negb submits_ then 1 else 0) /\
  listeners (world r) <= 1.
Proof.
  cbv zeta.
  destruct (reachable_invariant _ (reachable_run signals))
    as (Hl & Hf & _ & _ & Hrm & _ & _ & _ & _ & _ & more & Hop & _ & Hadd & _).
  split; [intros error w; apply onError_eq|].
  split; [|repeat match goal with |- _ /\ _ => split end; auto].
  - intros error event w H. unfold call. rewrite onWithdrawal_eq, H.
    destruct (Js.get event "transactionHash"); cbn [fst trace listeners];
      [|split; reflexivity].
    rewrite count_app. split; [tally|reflexivity].
  - rewrite Hop, count_app, Hadd, start_eq.
    unfold begun, subscribes, enters. fold token_.
    destruct (Js.is_nullish transfer); [|destruct (Js.is_nullish l1Config);
      [|destruct (Js.is_nullish token_)]]; reflexivity.
  - unfold run; cbn [fold_left]. rewrite start_eq.
    unfold begun, submits, subscribes, enters. fold token_.
    destruct (Js.is_nullish transfer); [|destruct (Js.is_nullish l1Config);
      [|destruct (Js.is_nullish token_)]]; reflexivity.
Qed.


(** C5.  In every run of the completion variant the call of [withdraw] comes
    after [addListener], with no [removeListener] in between: what precedes
    the call in the trace has [AddListener] and has no [RemoveListener]; and
    when [transfer], [l1Config] and the token are there to read, the call is
    made, right after the opening. *)
Theorem listener_registered_before_withdraw signals :
  (forall pre args post,
     trace (world (run_ signals)) = pre ++ CallWithdraw args :: post ->
     In AddListener pre /\ ~ In RemoveListener pre /\ args = withdraw_call_) /\
  (Js.is_nullish transfer = false ->
   Js.is_nullish l1Config = false ->
   Js.is_nullish token_ = false ->
   exists post,
     trace (world (run_ signals)) = opening_ ++ CallWithdraw withdraw_call_ :: post).
Proof.
  destruct (reachable_invariant _ (reachable_run signals))
    as (_ & _ & _ & _ & _ & _ & _ & _ & _ & _ & more & Hop & Hch & _).
  rewrite start_eq in Hop. unfold begun in Hop. fold token_ in Hop.
  assert (Hno : forall tr,
             trace (world (run_ signals)) = tr ++ more ->
             count is_chain_call tr = 0 ->
             forall pre args post,
               trace (world (run_ signals)) = pre ++ CallWithdraw args :: post ->
               False).
  { intros tr E H0 pre args post E'.
    assert (Hc : count is_chain_call (trace (world (run_ signals))) = 0)
      by (rewrite E, count_app; lia).
    rewrite E', count_app in Hc. unfold count in Hc. cbn in Hc. lia. }
  destruct (Js.is_nullish transfer);
    [|destruct (Js.is_nullish l1Config); [|destruct (Js.is_nullish token_)]];
    cbn [world trace] in Hop.
  - split; [|discriminate]. intros pre args post E. exfalso.
    now apply (Hno _ Hop eq_refl pre args post).
  - split; [|discriminate]. intros pre args post E. exfalso.
    now apply (Hno _ Hop eq_refl pre args post).
  - split; [|discriminate]. intros pre args post E. exfalso.
    now apply (Hno _ Hop eq_refl pre args post).
  - rewrite <- app_assoc in Hop. cbn [app] in Hop.
    split; [|intros _ _ _; now exists more].
    intros pre args post E. rewrite Hop in E.
    assert (pre = opening_) as ->
      by now apply (unique_split is_chain_call _ _ _ _ _ _ (eq_sym E)).
    apply app_inv_head in E. injection E as <- _.
    split; [cbn; auto 6|]. split; [|reflexivity].
    cbn. intros H. repeat (destruct H as [H|H]; [discriminate|]). exact H.
Qed.

End CompleteTransferToL1_facts.

(** ** Both variants: no check before the start *)

(** C2 (as amended).  Neither variant checks the account or the token before
    it starts, and every Failure either variant delivers has the kind
    TRANSACTION_ERROR.  Initiation: without a [selectedToken] the
    destructuring throws before the [try] block, the promise rejects and
    nothing is recorded; without an [l2Config] the run fails inside the [try]
    block, after the first log line; otherwise it opens with the
    wait-for-confirm progress event, the initiated record and the submit
    call, made with the accounts as they are.  Completion: without a
    [transfer] the promise rejects and nothing is recorded; without an
    [l1Config] the run fails after the first log line; when the token of the
    symbol does not resolve, it fails after the progress event, the listener
    registration and the initiated record, without a chain call; otherwise
    [withdraw] is called with the account as it is, and no signal leads to
    another chain call.  A run that did not get to [withdraw] is over. *)
Theorem no_check_before_start
    l1Account l2Account l2Config selectedToken getContract action
    initiateWithdraw waitForTransaction amount
    l1Config getL1Token forwards_once transfer signals :
  let initiation :=
    runTransferToL1 l1Account l2Account l2Config selectedToken getContract
      action initiateWithdraw waitForTransaction amount in
  let completion :=
    run l1Account l1Config getL1Token getContract forwards_once transfer
        signals in
  let first := start l1Account l1Config getL1Token getContract transfer in
  let token := getL1Token (Js.get_opt transfer "symbol") in
  (if Js.is_nullish selectedToken
   then initiation = ([], Rejected (Js.TypeError "decimals" selectedToken))
   else if Js.is_nullish l2Config
   then initiation =
        ([LoggerLog "TransferToL1 called" [];
          LoggerError (Js.get_opt (Js.TypeError "name" l2Config) "message")
                      (Js.TypeError "name" l2Config);
          TrackError (Js.TypeError "name" l2Config);
          HandleError (progressOptions.error TRANSACTION_ERROR
                         (Js.TypeError "name" l2Config))],
         Fulfilled)
   else exists rest,
          fst initiation =
          submitting l1Account l2Account l2Config selectedToken getContract
                     amount ++ rest) /\
  Forall (eq TRANSACTION_ERROR) (failure_kinds (fst initiation)) /\
  first =
    (if Js.is_nullish transfer
     then mkRun (mkWorld [] 0) false (Rejected (Js.TypeError "symbol" transfer))
     else if Js.is_nullish l1Config
     then mkRun (mkWorld
                   (LoggerLog "CompleteTransferToL1 called" [] ::
                    error_burst (Js.TypeError "name" l1Config)) 0)
                false Fulfilled
     else if Js.is_nullish token
     then mkRun (mkWorld
                   (opening l1Account l1Config transfer ++
                    error_burst (Js.TypeError "bridgeAddress" token)) 0)
                false Fulfilled
     else mkRun (mkWorld
                   (opening l1Account l1Config transfer ++
                    [CallWithdraw
                       (withdraw_call l1Account getL1Token getContract transfer)])
                   1)
                true Pending) /\
  (if submits l1Config getL1Token transfer
   then exists more,
          trace (world completion) = trace (world first) ++ more /\
          count is_chain_call more = 0
   else completion = first) /\
  Forall (eq TRANSACTION_ERROR) (failure_kinds (trace (world completion))).
Proof.
  cbv zeta. split; [|split; [|split; [|split]]].
  - destruct (Js.is_nullish selectedToken) eqn:Hs;
      [|destruct (Js.is_nullish l2Config) eqn:Hc].
    + now rewrite runTransferToL1_eq, Hs.
    + now rewrite runTransferToL1_eq, Hs, Hc.
    + destruct (initiated_once_before_submit l1Account l2Account l2Config
                  selectedToken getContract action initiateWithdraw
                  waitForTransaction amount Hs Hc) as (rest & H & _).
      now exists rest.
  - rewrite runTransferToL1_eq.
    assert (Hc : forall tr ex,
               Forall (eq TRANSACTION_ERROR) (failure_kinds tr) ->
               Forall (eq TRANSACTION_ERROR) (failure_kinds (fst (catching tr ex)))).
    { intros tr ex H. rewrite catching_eq. destruct (Js.is_nullish ex); cbn [fst]; auto.
      rewrite failure_kinds_app. apply Forall_app. split; auto. repeat constructor. }
    destruct (Js.is_nullish selectedToken); [constructor|].
    destruct (Js.is_nullish l2Config); [apply Hc; constructor|].
    destruct (initiateWithdraw _) as [receipt|reason|].
    + destruct (Js.get receipt "transaction_hash") as [l2hash|thrown].
      * destruct (waitForTransaction l2hash RECEIVED) as [v|reason|];
          [constructor|apply Hc; constructor|constructor].
      * apply Hc. constructor.
    + apply Hc. constructor.
    + constructor.
  - rewrite start_eq. reflexivity.
  - destruct (submits l1Config getL1Token transfer) eqn:Hs.
    + destruct (reachable_invariant l1Account l1Config getL1Token getContract
                  forwards_once transfer _ (reachable_run _ _ _ _ _ _ signals))
        as (_ & _ & _ & _ & _ & _ & _ & _ & _ & _ & more & Hop & Hch & _).
      now exists more.
    + now apply run_over.
  - apply (reachable_invariant l1Account l1Config getL1Token getContract
             forwards_once transfer), reachable_run.
Qed.

(** C2 (counterexample).  With a symbol that has no token, the completion run
    is no upfront UNKNOWN_TOKEN rejection: it fails with TRANSACTION_ERROR
    after a progress event and two tracking records (initiated, error).  With
    no account at all, the initiation run is no upfront MISSING_ACCOUNT
    rejection: it emits the progress event, records the initiated event and
    makes the submit call. *)
Lemma no_upfront_rejection :
  let completion :=
    trace (world (sample_complete (fun _ => Js.undefined) false [])) in
  let initiation :=
    fst (sample_initiate Js.undefined Js.undefined
           (fun _ => Rejects (Js.str "recipient is undefined"))
           (fun _ _ => NeverSettles)) in
  (~ rejected_upfront UNKNOWN_TOKEN completion /\
   failure_kinds completion = [TRANSACTION_ERROR] /\
   count is_progress completion = 1 /\
   count is_tracking completion = 2) /\
  (~ rejected_upfront MISSING_ACCOUNT initiation /\
   failure_kinds initiation = [TRANSACTION_ERROR] /\
   count is_progress initiation = 1 /\
   count is_track_initiated initiation = 1 /\
   count is_chain_call initiation = 1).
Proof.
  cbv zeta. split; (split; [|vm_compute; auto]);
    unfold rejected_upfront; vm_compute; intros [H _]; discriminate.
Qed.

(** ** Sample runs *)

(** C1 (counterexample).  The listener reports an error, then the signing
    callback reports one: two Failure outcomes and two error records. *)
Lemma completion_error_delivered_twice :
  let tr :=
    trace (world (sample_complete (fun _ => sample_token) false
                    [Withdrawal (Js.str "log source failed") Js.undefined;
                     TransactionHash (Js.str "User denied") Js.undefined])) in
  ~ single_outcome tr /\
  count is_failure tr = 2 /\
  count is_track_error tr = 2.
Proof.
  cbv zeta. split; [|vm_compute; auto].
  unfold single_outcome. vm_compute. intros [H _]. discriminate.
Qed.

(** C3 (counterexample).  The transaction is signed and the withdrawal event
    arrives: a Success is delivered and [removeListener] was never called. *)
Lemma completion_success_keeps_listener :
  let r :=
    sample_complete (fun _ => sample_token) false
      [TransactionHash Js.undefined (Js.str "0x5e1f");
       Withdrawal Js.undefined sample_event;
       WithdrawResolved Js.undefined] in
  ~ listener_removed_at_outcome (trace (world r)) /\
  count is_success (trace (world r)) = 1 /\
  count is_remove_listener (trace (world r)) = 0 /\
  promise r = Fulfilled.
Proof.
  cbv zeta. split; [|vm_compute; auto].
  unfold listener_removed_at_outcome. vm_compute. intros H.
  specialize (H (le_n 1)). intuition discriminate.
Qed.

(** The success branch of the listener callback on the sample event. *)
Lemma listener_removed_on_error_path_witness :
  Js.truthy Js.undefined = false /\
  listeners (call (onWithdrawal sample_transfer Js.undefined sample_event)
                  (mkWorld [] 1)) = 1.
Proof.
  split; [reflexivity|].
  destruct (listener_removed_on_error_path
              (Js.str "0x71c7") (sample_config "Ethereum") (fun _ => sample_token)
              sample_contract false sample_transfer []) as (_ & H & _).
  apply (H Js.undefined sample_event (mkWorld [] 1)). reflexivity.
Defined.


(** The sample transfer, configuration and token are there to read:
    [withdraw] is called right after the opening. *)
Lemma listener_registered_before_withdraw_witness :
  Js.is_nullish sample_transfer = false /\
  Js.is_nullish (sample_config "Ethereum") = false /\
  Js.is_nullish sample_token = false /\
  exists post,
    trace (world (sample_complete (fun _ => sample_token) true
                    [TransactionHash Js.undefined (Js.str "0x5e1f")])) =
    opening (Js.str "0x71c7") (sample_config "Ethereum") sample_transfer ++
    CallWithdraw
      (withdraw_call (Js.str "0x71c7") (fun _ => sample_token) sample_contract
                     sample_transfer) :: post.
Proof.
  do 3 (split; [reflexivity|]).
  apply (proj2 (listener_registered_before_withdraw
                  (Js.str "0x71c7") (sample_config "Ethereum")
                  (fun _ => sample_token)
                  sample_contract true sample_transfer
                  [TransactionHash Js.undefined (Js.str "0x5e1f")]));
    reflexivity.
Defined.

(** The submit call and the wait both resolve: steps 0 and 1. *)
Lemma progress_in_step_order_witness :
  let tr :=
    fst (sample_initiate (Js.str "0x71c7") (Js.str "0x04a0")
           (fun _ => Resolves sample_receipt)
           (fun _ _ => Resolves Js.undefined)) in
  count is_success tr = 1 /\ progress_steps tr = [0; 1]%Z.
Proof.
  split; [reflexivity|].
  destruct (progress_in_step_order
              (Js.str "0x71c7") (Js.str "0x04a0") (sample_config "Goerli")
              sample_selected sample_contract sample_action
              (fun _ => Resolves sample_receipt)
              (fun _ _ => Resolves Js.undefined) (Js.num 5%float))
    as (_ & H & _); [reflexivity|].
  exact H.
Defined.

(** The sample token and configuration are there to read, the submit call
    rejects with [undefined]: the promise of the callback rejects. *)
Lemma nullish_rejection_escapes_catch_witness :
  Js.is_nullish sample_selected = false /\
  Js.is_nullish (sample_config "Goerli") = false /\
  snd (sample_initiate (Js.str "0x71c7") (Js.str "0x04a0")
         (fun _ => Rejects Js.undefined) (fun _ _ => NeverSettles)) =
  Rejected (Js.TypeError "message" Js.undefined).
Proof.
  do 2 (split; [reflexivity|]).
  apply (nullish_rejection_escapes_catch
           (Js.str "0x71c7") (Js.str "0x04a0") (sample_config "Goerli")
           sample_selected sample_contract sample_action
           (fun _ _ => NeverSettles) (Js.num 5%float));
    reflexivity.
Defined.

(** The same environment, the wait rejects with [null]: one initiated
    record, no error record. *)
Lemma initiated_without_error_record_witness :
  Js.is_nullish sample_selected = false /\
  Js.is_nullish (sample_config "Goerli") = false /\
  let tr :=
    fst (sample_initiate (Js.str "0x71c7") (Js.str "0x04a0")
           (fun _ => Resolves sample_receipt) (fun _ _ => Rejects Js.null)) in
  count is_track_initiated tr = 1 /\ count is_track_error tr = 0.
Proof.
  do 2 (split; [reflexivity|]). cbv zeta.
  destruct (initiated_without_error_record
              (Js.str "0x71c7") (Js.str "0x04a0") (sample_config "Goerli")
              sample_selected sample_contract sample_action (Js.num 5%float)
              eq_refl eq_refl) as (_ & Hi & He & _).
  split; [exact Hi|exact He].
Defined.

(** ** The decimal helpers *)

Section Binary64.

Local Open Scope Z_scope.

Lemma digits2_size p : digits2_pos p = Pos.size p.
Proof. induction p; cbn; now rewrite ?IHp. Qed.

Lemma digits_bounds p :
  2 ^ (Zpos (digits2_pos p) - 1) <= Zpos p < 2 ^ Zpos (digits2_pos p).
Proof.
  rewrite digits2_size. split.
  - pose proof (Pos.size_le p) as H.
    assert (H' : (Zpos (2 ^ Pos.size p) <= Zpos p~0)) by exact H.
    rewrite Pos2Z.inj_pow in H'.
    replace (Zpos (Pos.size p)) with (Zpos (Pos.size p) - 1 + 1) in H' by lia.
    rewrite Z.pow_add_r in H' by lia. lia.
  - pose proof (Pos.size_gt p) as H.
    assert (H' : (Zpos p < Zpos (2 ^ Pos.size p))) by exact H.
    now rewrite Pos2Z.inj_pow in H'.
Qed.

Lemma digits_unique p d :
  2 ^ (d - 1) <= Zpos p < 2 ^ d -> Zpos (digits2_pos p) = d.
Proof.
  intros [Hl Hu]. destruct (digits_bounds p) as [Hl' Hu'].
  assert (0 < d).
  { destruct (Z.le_gt_cases d 0) as [H|H]; [|exact H].
    exfalso. assert (2 ^ d <= 2 ^ 0) by (apply Z.pow_le_mono_r; lia). cbn in *. lia. }
  destruct (Z.lt_trichotomy (Zpos (digits2_pos p)) d) as [H1|[H1|H1]]; [|exact H1|].
  - exfalso. assert (2 ^ Zpos (digits2_pos p) <= 2 ^ (d - 1)) by (apply Z.pow_le_mono_r; lia). lia.
  - exfalso. assert (2 ^ d <= 2 ^ (Zpos (digits2_pos p) - 1)) by (apply Z.pow_le_mono_r; lia). lia.
Qed.

Lemma digits_shift p a q :
  0 <= a -> Zpos q = Zpos p * 2 ^ a ->
  Zpos (digits2_pos q) = Zpos (digits2_pos p) + a.
Proof.
  intros Ha Hq. apply digits_unique. rewrite Hq.
  destruct (digits_bounds p) as [Hl Hu].
  replace (Zpos (digits2_pos p) + a - 1) with (Zpos (digits2_pos p) - 1 + a) by lia.
  rewrite !Z.pow_add_r by lia.
  assert (0 < 2 ^ a) by (apply Z.pow_pos_nonneg; lia).
  split; nia.
Qed.

Lemma iter_pos_nat {A} (f : A -> A) p x :
  iter_pos f p x = Nat.iter (Pos.to_nat p) f x.
Proof.
  revert x. induction p as [p IH|p IH|]; intros x; cbn [iter_pos].
  - rewrite !IH, Pos2Nat.inj_xI.
    replace (S (2 * Pos.to_nat p))%nat
      with (Pos.to_nat p + (Pos.to_nat p + 1))%nat by lia.
    now rewrite !Nat.iter_add.
  - rewrite !IH, Pos2Nat.inj_xO.
    replace (2 * Pos.to_nat p)%nat with (Pos.to_nat p + Pos.to_nat p)%nat by lia.
    now rewrite Nat.iter_add.
  - reflexivity.
Qed.

Lemma shr_1_zeros n x :
  0 < x ->
  Nat.iter n shr_1 (Build_shr_record (x * 2 ^ Z.of_nat n) false false) =
  Build_shr_record x false false.
Proof.
  revert x. induction n as [|n IH]; intros x Hx.
  - cbn [Nat.iter]. change (2 ^ Z.of_nat 0) with 1. now rewrite Z.mul_1_r.
  - rewrite Nat2Z.inj_succ, Z.pow_succ_r by lia.
    replace (x * (2 * 2 ^ Z.of_nat n)) with (2 * x * 2 ^ Z.of_nat n) by ring.
    change (Nat.iter (S n) shr_1 ?r) with (shr_1 (Nat.iter n shr_1 r)).
    rewrite IH by lia. destruct x as [|p|p]; try lia. reflexivity.
Qed.

Lemma shr_zeros x e t :
  0 < x -> 0 <= t ->
  shr (Build_shr_record (x * 2 ^ t) false false) e t =
  (Build_shr_record x false false, e + t).
Proof.
  intros Hx Ht. destruct t as [|p|p]; [| |lia].
  - cbn [shr]. change (2 ^ 0) with 1. now rewrite Z.mul_1_r, Z.add_0_r.
  - cbn [shr]. f_equal. rewrite iter_pos_nat.
    rewrite <- (positive_nat_Z p) at 1. now apply shr_1_zeros.
Qed.



Lemma digits_le p d : 0 <= d -> Zpos p < 2 ^ d -> Zpos (digits2_pos p) <= d.
Proof.
  intros Hd Hp. destruct (digits_bounds p) as [Hl _].
  destruct (Z.le_gt_cases (Zpos (digits2_pos p)) d) as [H|H]; [exact H|].
  exfalso. assert (2 ^ d <= 2 ^ (Zpos (digits2_pos p) - 1)) by (apply Z.pow_le_mono_r; lia).
  lia.
Qed.

Lemma digits_ge p d : 0 <= d -> 2 ^ d <= Zpos p -> d + 1 <= Zpos (digits2_pos p).
Proof.
  intros Hd Hp. destruct (digits_bounds p) as [_ Hu].
  destruct (Z.le_gt_cases (d + 1) (Zpos (digits2_pos p))) as [H|H]; [exact H|].
  exfalso. assert (2 ^ Zpos (digits2_pos p) <= 2 ^ d) by (apply Z.pow_le_mono_r; lia).
  lia.
Qed.

Lemma digits_mul a b c :
  Zpos c = Zpos a * Zpos b ->
  Zpos (digits2_pos a) + Zpos (digits2_pos b) - 1 <= Zpos (digits2_pos c)
    <= Zpos (digits2_pos a) + Zpos (digits2_pos b).
Proof.
  intros Hc.
  destruct (digits_bounds a) as [Hal Hau], (digits_bounds b) as [Hbl Hbu].
  split.
  - assert (H : Zpos (digits2_pos a) - 1 + (Zpos (digits2_pos b) - 1) + 1
                <= Zpos (digits2_pos c)).
    { apply digits_ge; [lia|]. rewrite Z.pow_add_r, Hc by lia.
      apply Z.mul_le_mono_nonneg; try assumption; apply Z.pow_nonneg; lia. }
    lia.
  - apply digits_le; [lia|]. rewrite Z.pow_add_r, Hc by lia.
    apply Z.mul_lt_mono_nonneg; lia.
Qed.

Lemma canon_mantissa m :
  Zpos (digits2_pos m) <= 53 ->
  Zpos (Z.to_pos (Zpos m * 2 ^ (53 - Zpos (digits2_pos m)))) =
  Zpos m * 2 ^ (53 - Zpos (digits2_pos m)).
Proof.
  intros H. apply Z2Pos.id.
  assert (0 < 2 ^ (53 - Zpos (digits2_pos m))) by (apply Z.pow_pos_nonneg; lia). lia.
Qed.

Lemma canon_digits m :
  Zpos (digits2_pos m) <= 53 ->
  Zpos (digits2_pos (Z.to_pos (Zpos m * 2 ^ (53 - Zpos (digits2_pos m))))) = 53.
Proof.
  intros H.
  rewrite (digits_shift m (53 - Zpos (digits2_pos m))); [lia|lia|].
  now apply canon_mantissa.
Qed.

Lemma canon_valid s m z :
  Zpos (digits2_pos m) <= 53 -> 0 <= z <= 900 ->
  valid_binary (canon s m z) = true.
Proof.
  intros Hd Hz. unfold canon. cbn [SpecFloat.valid_binary].
  unfold bounded, canonical_mantissa. rewrite canon_digits by assumption.
  apply andb_true_intro. split.
  - apply Z.eqb_eq. unfold fexp, SpecFloat.emin, prec, emax.
    pose proof (Pos2Z.is_pos (digits2_pos m)). lia.
  - apply Z.leb_le. unfold emax, prec.
    pose proof (Pos2Z.is_pos (digits2_pos m)). lia.
Qed.

(** Rounding a number that needs no rounding: [m * 2^a] at exponent [e],
    where [m] has at most 53 digits. *)
Lemma round_exact s (m M : positive) (a e : Z) :
  Zpos (digits2_pos m) <= 53 ->
  53 - Zpos (digits2_pos m) <= a ->
  -1074 <= e + a - (53 - Zpos (digits2_pos m)) <= 971 ->
  Zpos M = Zpos m * 2 ^ a ->
  binary_round_aux prec emax s (Zpos M) e loc_Exact = canon s m (e + a).
Proof.
  intros Hd Ha He HM.
  set (dm := Zpos (digits2_pos m)) in *.
  set (q := Z.to_pos (Zpos m * 2 ^ (53 - dm))).
  assert (Hq : Zpos q = Zpos m * 2 ^ (53 - dm)) by now apply canon_mantissa.
  assert (HdM : Zpos (digits2_pos M) = dm + a)
    by (apply (digits_shift m a M); [lia|exact HM]).
  assert (Hdq : Zpos (digits2_pos q) = 53) by now apply canon_digits.
  unfold binary_round_aux, shr_fexp. cbn [shr_record_of_loc Zdigits2].
  rewrite HdM.
  assert (Hf : fexp prec emax (dm + a + e) - e = dm + a - 53)
    by (unfold fexp, SpecFloat.emin, prec, emax; lia).
  rewrite Hf.
  assert (HMq : Zpos M = Zpos q * 2 ^ (dm + a - 53)).
  { rewrite HM, Hq, <- Z.mul_assoc, <- Z.pow_add_r by lia. f_equal. f_equal. lia. }
  rewrite HMq, shr_zeros by lia.
  cbn [shr_m loc_of_shr_record round_nearest_even Zdigits2]. rewrite Hdq.
  assert (Hf2 : fexp prec emax (53 + (e + (dm + a - 53))) - (e + (dm + a - 53)) = 0)
    by (unfold fexp, SpecFloat.emin, prec, emax; lia).
  rewrite Hf2. cbn [shr shr_m].
  destruct (Z.leb_spec (e + (dm + a - 53)) (emax - prec)) as [H|H].
  - unfold canon. fold dm. fold q. f_equal. lia.
  - unfold emax, prec in H. lia.
Qed.

Lemma iter_xO M d : Zpos (Pos.iter xO M d) = Zpos M * 2 ^ Zpos d.
Proof.
  induction d as [|d IH] using Pos.peano_ind.
  - cbn [Pos.iter]. change (2 ^ 1) with 2. lia.
  - rewrite Pos.iter_succ, Pos2Z.inj_succ, Z.pow_succ_r by lia.
    rewrite Pos2Z.inj_xO, IH. ring.
Qed.

Lemma normalize_canon s m z M :
  Zpos (digits2_pos m) <= 53 -> 0 <= z <= 900 ->
  Zpos M = Zpos m * 2 ^ z ->
  binary_round prec emax s M 0 = canon s m z.
Proof.
  intros Hd Hz HM.
  assert (HdM : Zpos (digits2_pos M) = Zpos (digits2_pos m) + z)
    by (apply (digits_shift m z M); [lia|exact HM]).
  pose proof (Pos2Z.is_pos (digits2_pos m)) as Hpos.
  unfold binary_round, shl_align. rewrite Z.add_0_r, HdM.
  assert (Hf : fexp prec emax (Zpos (digits2_pos m) + z) =
               Zpos (digits2_pos m) + z - 53)
    by (unfold fexp, SpecFloat.emin, prec, emax; lia).
  rewrite Hf, Z.sub_0_r.
  remember (Zpos (digits2_pos m) + z - 53) as t eqn:E.
  destruct t as [|t|t].
  - rewrite (round_exact s m M z 0) by (assumption || lia). f_equal.
  - rewrite (round_exact s m M z 0) by (assumption || lia). f_equal.
  - rewrite (round_exact s m _ (53 - Zpos (digits2_pos m)) (Zneg t)).
    + f_equal. lia.
    + assumption.
    + lia.
    + lia.
    + rewrite iter_xO, HM, <- Z.mul_assoc, <- Z.pow_add_r by lia.
      f_equal. f_equal. lia.
Qed.

Section Exact.

(** [m = k * p] below [2^53]: dividing [m * 2^z] by [p * 2^z] gives [k], and
    multiplying [k] by [p * 2^z] gives [m * 2^z], both without rounding. *)
Variables (s : bool) (k p m : positive) (z : Z).
Hypothesis Hm : Zpos m = Zpos k * Zpos p.
Hypothesis Hbound : Zpos m < 2 ^ 53.
Hypothesis Hz : 0 <= z <= 900.

Local Abbreviation dk := (Zpos (digits2_pos k)).
Local Abbreviation dp := (Zpos (digits2_pos p)).
Local Abbreviation dm := (Zpos (digits2_pos m)).

Lemma exact_digits : 0 < dk /\ 0 < dp /\ dk + dp - 1 <= dm <= dk + dp /\ dm <= 53.
Proof.
  pose proof (digits_mul k p m Hm).
  pose proof (digits_le m 53 ltac:(lia) Hbound). lia.
Qed.

Lemma mul_exact :
  SFmul prec emax (canon s k 0) (canon false p z) = canon s m z.
Proof.
  destruct exact_digits as (Hk & Hp & Hkp & Hd).
  unfold canon at 1 2. cbn [SFmul].
  rewrite xorb_false_r.
  rewrite (round_exact s m _ (106 - dk - dp) (0 - (53 - dk) + (z - (53 - dp)))).
  - f_equal. lia.
  - exact Hd.
  - lia.
  - lia.
  - rewrite Pos2Z.inj_mul, !canon_mantissa by lia.
    rewrite Hm.
    replace (106 - dk - dp) with ((53 - dk) + (53 - dp)) by lia.
    rewrite Z.pow_add_r by lia. ring.
Qed.

Lemma div_exact :
  SFdiv prec emax (canon s m z) (canon false p z) = canon s k 0.
Proof.
  destruct exact_digits as (Hk & Hp & Hkp & Hd).
  unfold canon at 1 2. cbn [SFdiv].
  unfold SFdiv_core_binary. cbn [Zdigits2].
  rewrite !canon_digits by lia.
  rewrite !canon_mantissa by lia.
  assert (He : Z.min (fexp prec emax (53 + (z - (53 - dm)) - (53 + (z - (53 - dp)))))
                     (z - (53 - dm) - (z - (53 - dp))) = dm - dp - 53)
    by (unfold fexp, SpecFloat.emin, prec, emax; lia).
  rewrite He.
  replace (z - (53 - dm) - (z - (53 - dp)) - (dm - dp - 53)) with 53 by lia.
  rewrite Z.shiftl_mul_pow2 by lia.
  assert (Hq : Zpos m * 2 ^ (53 - dm) * 2 ^ 53 =
               Zpos k * 2 ^ (53 - dm + dp) * (Zpos p * 2 ^ (53 - dp))).
  { rewrite Hm. replace (53 - dm + dp) with ((53 - dm) + dp) by lia.
    replace (2 ^ 53) with (2 ^ dp * 2 ^ (53 - dp))
      by (rewrite <- Z.pow_add_r by lia; f_equal; lia).
    rewrite (Z.pow_add_r 2 (53 - dm) dp) by lia. ring. }
  assert (Hpos : 0 < Zpos p * 2 ^ (53 - dp))
    by (assert (0 < 2 ^ (53 - dp)) by (apply Z.pow_pos_nonneg; lia); lia).
  assert (Hdiv : Z.div_eucl (Zpos m * 2 ^ (53 - dm) * 2 ^ 53) (Zpos p * 2 ^ (53 - dp)) =
                 (Zpos k * 2 ^ (53 - dm + dp), 0)).
  { rewrite Hq.
    pose proof (Z.div_mul (Zpos k * 2 ^ (53 - dm + dp)) (Zpos p * 2 ^ (53 - dp))
                  ltac:(lia)) as Hd1.
    pose proof (Z.mod_mul (Zpos k * 2 ^ (53 - dm + dp)) (Zpos p * 2 ^ (53 - dp))
                  ltac:(lia)) as Hd2.
    unfold Z.div, Z.modulo in Hd1, Hd2.
    destruct (Z.div_eucl _ _) as [q r]. cbn [fst snd] in Hd1, Hd2.
    now rewrite Hd1, Hd2. }
  rewrite Hdiv.
  assert (Hloc : new_location (Zpos p * 2 ^ (53 - dp)) 0 = loc_Exact).
  { unfold new_location. destruct (Z.even _); reflexivity. }
  rewrite Hloc, xorb_false_r.
  assert (Hkpos : 0 < Zpos k * 2 ^ (53 - dm + dp))
    by (assert (0 < 2 ^ (53 - dm + dp)) by (apply Z.pow_pos_nonneg; lia); lia).
  rewrite <- (Z2Pos.id (Zpos k * 2 ^ (53 - dm + dp))) by exact Hkpos.
  rewrite (round_exact s k _ (53 - dm + dp) (dm - dp - 53)).
  - f_equal. lia.
  - lia.
  - lia.
  - lia.
  - now rewrite Z2Pos.id by exact Hkpos.
Qed.

End Exact.

End Binary64.

Section Decimals.

Import parser.
Local Open Scope Z_scope.

Lemma Prim2SF_of_Z_canon s m z :
  Zpos (digits2_pos m) <= 53 -> 0 <= z <= 900 ->
  Prim2SF (of_Z (cond_Zopp s (Zpos m * 2 ^ z))) = canon s m z.
Proof.
  intros Hd Hz. unfold of_Z.
  assert (Hpos : 0 < Zpos m * 2 ^ z)
    by (assert (0 < 2 ^ z) by (apply Z.pow_pos_nonneg; lia); lia).
  assert (HM : Zpos (Z.to_pos (Zpos m * 2 ^ z)) = Zpos m * 2 ^ z)
    by now apply Z2Pos.id.
  rewrite <- HM.
  destruct s; cbn [cond_Zopp Z.opp binary_normalize];
    rewrite (normalize_canon _ m z) by assumption;
    apply Prim2SF_SF2Prim, canon_valid; assumption.
Qed.

Lemma five_pow_bound d : (d <= 18)%N -> 0 < 5 ^ Z.of_N d < 2 ^ 53.
Proof.
  intros Hd. split; [apply Z.pow_pos_nonneg; lia|].
  apply Z.le_lt_trans with (5 ^ 18); [apply Z.pow_le_mono_r; lia|reflexivity].
Qed.

(** The power of ten of a number of decimals, as a binary64 value. *)
Lemma Prim2SF_powerOf d :
  (d <= 18)%N ->
  Prim2SF (powerOf d) = canon false (Z.to_pos (5 ^ Z.of_N d)) (Z.of_N d).
Proof.
  intros Hd. destruct (five_pow_bound d Hd) as [H0 H53].
  unfold powerOf, Math_pow, TEN_BASE. change 10 with (5 * 2).
  rewrite Z.pow_mul_l.
  rewrite <- (Z2Pos.id (5 ^ Z.of_N d)) at 1 by exact H0.
  apply (Prim2SF_of_Z_canon false); [|lia].
  apply digits_le; [lia|]. now rewrite Z2Pos.id.
Qed.

Lemma canon_eqb s m z : SFeqb (canon s m z) (canon s m z) = true.
Proof.
  unfold canon, SFeqb. cbn [SFcompare].
  destruct s; now rewrite Z.compare_refl, Pos.compare_cont_refl.
Qed.

Lemma round_trip_exact (d : N) (k : Z) :
  (d <= 18)%N -> Z.abs k * 5 ^ Z.of_N d < 2 ^ 53 ->
  let v := of_Z (k * 10 ^ Z.of_N d) in
  toDecimals (fromDecimals v (Some d)) (Some d) = v /\
  SFeqb (Prim2SF v) (Prim2SF v) = true.
Proof.
  intros Hd Hk v. destruct (five_pow_bound d Hd) as [H0 H53].
  unfold toDecimals, fromDecimals, or_default.
  set (p5 := Z.to_pos (5 ^ Z.of_N d)).
  assert (Hp5 : Zpos p5 = 5 ^ Z.of_N d) by now apply Z2Pos.id.
  pose proof (Prim2SF_powerOf d Hd) as HP. fold p5 in HP.
  destruct k as [|pk|pk].
  - (* zero *)
    assert (Hv : Prim2SF v = S754_zero false) by reflexivity.
    split; [|now rewrite Hv].
    apply Prim2SF_inj.
    rewrite mul_spec, div_spec, HP, Hv. reflexivity.
  - assert (Hm : Zpos (pk * p5) = Zpos pk * Zpos p5) by apply Pos2Z.inj_mul.
    assert (Hb : Zpos (pk * p5) < 2 ^ 53) by (rewrite Hm, Hp5; exact Hk).
    assert (Hv : Prim2SF v = canon false (pk * p5) (Z.of_N d)).
    { unfold v. replace (Zpos pk * 10 ^ Z.of_N d)
        with (cond_Zopp false (Zpos (pk * p5) * 2 ^ Z.of_N d)).
      - apply Prim2SF_of_Z_canon; [apply digits_le; lia|lia].
      - cbn [cond_Zopp]. rewrite Hm, Hp5. change 10 with (5 * 2).
        rewrite Z.pow_mul_l. ring. }
    split; [|rewrite Hv; apply canon_eqb].
    apply Prim2SF_inj.
    rewrite mul_spec, div_spec, HP, Hv.
    unfold SF64mul, SF64div.
    rewrite (div_exact false pk p5 (pk * p5) (Z.of_N d) Hm Hb) by lia.
    apply (mul_exact false pk p5 (pk * p5) (Z.of_N d) Hm Hb). lia.
  - assert (Hm : Zpos (pk * p5) = Zpos pk * Zpos p5) by apply Pos2Z.inj_mul.
    assert (Hb : Zpos (pk * p5) < 2 ^ 53) by (rewrite Hm, Hp5; exact Hk).
    assert (Hv : Prim2SF v = canon true (pk * p5) (Z.of_N d)).
    { unfold v. replace (Zneg pk * 10 ^ Z.of_N d)
        with (cond_Zopp true (Zpos (pk * p5) * 2 ^ Z.of_N d)).
      - apply Prim2SF_of_Z_canon; [apply digits_le; lia|lia].
      - cbn [cond_Zopp]. rewrite Hm, Hp5. change 10 with (5 * 2).
        rewrite Z.pow_mul_l. change (Zneg pk) with (- Zpos pk). ring. }
    split; [|rewrite Hv; apply canon_eqb].
    apply Prim2SF_inj.
    rewrite mul_spec, div_spec, HP, Hv.
    unfold SF64mul, SF64div.
    rewrite (div_exact true pk p5 (pk * p5) (Z.of_N d) Hm Hb) by lia.
    apply (mul_exact true pk p5 (pk * p5) (Z.of_N d) Hm Hb). lia.
Qed.

End Decimals.

(** C8 (counterexample).  Seven base units at two decimals: [7 / 100 * 100]
    is [7.000000000000001], not [7]. *)
Lemma round_trip_fails_at_seven :
  parser.equals
    (parser.toDecimals (parser.fromDecimals 7%float (Some 2%N)) (Some 2%N))
    7%float = false.
Proof. vm_compute. reflexivity. Qed.

(** C8 (as amended).  For every number of decimals [d] from 0 to 18 and every
    whole [k] with [|k| * 5^d < 2^53], the value [v = k * 10^d] (a whole
    number of tokens, in base units) is a binary64 value, and
    [toDecimals(fromDecimals(v, d), d)] is [v], so [==] holds.  (Both the
    quotient [k] and the product are exact.  Other values may come back
    changed by a rounding.) *)
Theorem round_trip_of_whole_amounts (d : N) (k : Z) :
  (d <= 18)%N ->
  (Z.abs k * 5 ^ Z.of_N d < 2 ^ 53)%Z ->
  let v := parser.of_Z (k * 10 ^ Z.of_N d) in
  parser.toDecimals (parser.fromDecimals v (Some d)) (Some d) = v /\
  parser.equals (parser.toDecimals (parser.fromDecimals v (Some d)) (Some d)) v
  = true.
Proof.
  intros Hd Hk v. destruct (round_trip_exact d k Hd Hk) as [Heq Hrefl].
  fold v in Heq, Hrefl. split; [exact Heq|].
  rewrite Heq. unfold parser.equals. now rewrite eqb_spec.
Qed.

(** Five tokens of 18 decimals. *)
Lemma round_trip_of_whole_amounts_witness :
  (18 <= 18)%N /\
  (Z.abs 5 * 5 ^ Z.of_N 18 < 2 ^ 53)%Z /\
  parser.equals
    (parser.toDecimals
       (parser.fromDecimals (parser.of_Z (5 * 10 ^ Z.of_N 18)) (Some 18%N))
       (Some 18%N))
    (parser.of_Z (5 * 10 ^ Z.of_N 18)) = true.
Proof.
  split; [apply N.le_refl|]. split; [reflexivity|].
  apply (round_trip_of_whole_amounts 18 5); [apply N.le_refl|reflexivity].
Defined.

(** C9.  With the decimals left out, both helpers use 18: [toDecimals(v)] is
    [v * 1e18] and [fromDecimals(v)] is [v / 1e18], for every number [v]; and
    [1e18], the value of [Math.pow(10, 18)], is [10^18] exactly. *)
Theorem default_decimals_is_18 (v : float) :
  parser.toDecimals v None = (v * 1e18)%float /\
  parser.fromDecimals v None = (v / 1e18)%float /\
  parser.toDecimals v None = parser.toDecimals v (Some 18%N) /\
  parser.fromDecimals v None = parser.fromDecimals v (Some 18%N) /\
  Prim2SF (parser.powerOf parser.DEFAULT_DECIMALS)
    = S754_finite false 7812500000000000 7 /\
  (7812500000000000 * 2 ^ 7 = 10 ^ 18)%Z.
Proof.
  assert (H : parser.powerOf parser.DEFAULT_DECIMALS = 1e18%float)
    by (vm_compute; reflexivity).
  unfold parser.toDecimals, parser.fromDecimals, parser.or_default.
  rewrite H. repeat split; vm_compute; reflexivity.
Qed.


(** * Further properties of the hooks *)

(** ** The initiation variant, run by run *)

Section TransferToL1_runs.

Variables l1Account l2Account : Js.value.
Variable l2Config : Js.value.
Variable selectedToken : Js.value.
Variable getTokenBridgeContract : Js.value -> Js.value.
Variable TRANSFER_TO_L1 : Js.value.
Variable initiateWithdraw : BridgeCall -> Settle.
Variable waitForTransaction : Js.value -> TransactionStatus -> Settle.
Variable amount : Js.value.

Local Abbreviation the_run :=
  (runTransferToL1 l1Account l2Account l2Config selectedToken
                   getTokenBridgeContract TRANSFER_TO_L1 initiateWithdraw
                   waitForTransaction amount).
Local Abbreviation the_call :=
  (initiate_call l1Account selectedToken getTokenBridgeContract amount).
Local Abbreviation opens :=
  (submitting l1Account l2Account l2Config selectedToken
              getTokenBridgeContract amount).
Local Abbreviation waits := (waiting selectedToken amount).
Local Abbreviation ends :=
  (finishing l1Account l2Account selectedToken TRANSFER_TO_L1 amount).
Local Abbreviation gets_there := (reaches_submit l2Config selectedToken).
Local Abbreviation caught :=
  (fun ex =>
     [LoggerError (Js.get_opt ex "message") ex;
      TrackError ex;
      HandleError (progressOptions.error TRANSACTION_ERROR ex)]).

(** Membership in a trace that is known up to its tail. *)
Ltac absent H :=
  exfalso;
  repeat (apply in_app_or in H; destruct H as [H|H]);
  cbn in H; intuition discriminate.

(** The paths of the callback, one goal each. *)
Ltac run_cases :=
  rewrite runTransferToL1_eq; unfold reaches_submit;
  destruct (Js.is_nullish selectedToken) eqn:?;
  [|destruct (Js.is_nullish l2Config) eqn:?;
    [|let receipt := fresh "receipt" in
      let hash := fresh "hash" in
      destruct (initiateWithdraw the_call) as [receipt| |] eqn:?;
      [destruct (Js.get receipt "transaction_hash") as [hash|] eqn:?;
       [destruct (waitForTransaction hash RECEIVED) eqn:?|]| |]]];
  rewrite ?catching_eq, ?TypeError_not_nullish;
  try match goal with
      | |- context [Js.is_nullish ?x] => destruct (Js.is_nullish x) eqn:?
      end;
  cbn [fst snd orb negb].

(** X1.  Whenever the initiation callback hands a record to [handleData],
    [selectedToken] and [l2Config] were there to read, the submit call
    resolved with a receipt, the wait for the hash read from that receipt
    resolved, and the record is the transfer of the hook's accounts, token
    and amount with that same hash: the run is the full [try] block, with one
    [waitForTransaction] call and one [trackSuccess] call on the hash of the
    record. *)
Theorem success_record_of_receipt rec :
  In (HandleData rec) (fst the_run) ->
  exists receipt hash v,
    Js.is_nullish selectedToken = false /\
    Js.is_nullish l2Config = false /\
    initiateWithdraw the_call = Resolves receipt /\
    Js.get receipt "transaction_hash" = inl hash /\
    waitForTransaction hash RECEIVED = Resolves v /\
    rec = Js.obj [("type", TRANSFER_TO_L1);
                  ("sender", l2Account);
                  ("recipient", l1Account);
                  ("name", Js.get_opt selectedToken "name");
                  ("symbol", Js.get_opt selectedToken "symbol");
                  ("amount", amount);
                  ("l2hash", hash)] /\
    the_run = (opens ++ waits hash ++ ends hash, Fulfilled).
Proof.
  run_cases; intros H; try (absent H).
  match goal with
  | Hr : initiateWithdraw _ = Resolves ?r, Hh : Js.get ?r _ = inl ?h,
    Hw : waitForTransaction ?h _ = Resolves ?v |- _ =>
      exists r, h, v
  end.
  repeat (split; [reflexivity || assumption|]). split; [|reflexivity].
  repeat (apply in_app_or in H; destruct H as [H|H]);
    cbn in H; intuition (try discriminate).
  unfold initiated_record in *. congruence.
Qed.

(** X2.  In every run of the initiation callback the progress events are the
    first steps of the flow's list, in its order, as many as the run made
    chain calls: none when [selectedToken] or [l2Config] is missing, the
    CONFIRM_TX event alone when [initiateWithdraw] was called and
    [waitForTransaction] was not, the CONFIRM_TX then the INITIATE_WITHDRAW
    event when both were called. *)
Theorem progress_follows_the_calls :
  progress_steps (fst the_run) =
    map (fun st => stepOf st TransferToL1Steps)
        (firstn (count is_chain_call (fst the_run)) TransferToL1Steps) /\
  count is_chain_call (fst the_run) =
    count is_submit_call (fst the_run) + count is_wait_call (fst the_run) /\
  count is_wait_call (fst the_run) <= count is_submit_call (fst the_run) /\
  count is_submit_call (fst the_run) = if gets_there then 1 else 0.
Proof.
  run_cases; repeat split; try reflexivity; try (cbn; lia).
Qed.

(** X3.  A run of the initiation callback that gets to the submit call
    ([selectedToken] and [l2Config] are there to read) calls
    [initiateWithdraw] exactly once, at the end of the same opening; a run
    that does not makes no chain call.  [waitForTransaction] is called at
    most once, and only after the submit call has resolved, with the
    [transaction_hash] read from its receipt. *)
Theorem chain_calls_in_order :
  (if gets_there
   then exists rest, fst the_run = opens ++ rest /\ count is_chain_call rest <= 1
   else count is_chain_call (fst the_run) = 0) /\
  count is_submit_call (fst the_run) = (if gets_there then 1 else 0) /\
  count is_wait_call (fst the_run) <= 1 /\
  forall hash status,
    In (CallWaitForTransaction hash status) (fst the_run) ->
    exists receipt,
      In (CallInitiateWithdraw the_call) (fst the_run) /\
      initiateWithdraw the_call = Resolves receipt /\
      Js.get receipt "transaction_hash" = inl hash.
Proof.
  split; [|split; [|split]].
  - run_cases; try reflexivity;
      first [ eexists; split; [reflexivity|]
            | eexists; split; [rewrite <- app_assoc; reflexivity|]
            | exists []; split; [now rewrite app_nil_r|] ];
      unfold waiting, finishing; rewrite ?count_app; tally.
  - run_cases; unfold entering, submitting, waiting, finishing; tally.
  - run_cases; unfold entering, submitting, waiting, finishing; tally.
  - intros hash' status. run_cases; intros H;
      try (exists receipt; split; [cbn; auto 10|split; [reflexivity|]]);
      repeat (apply in_app_or in H; destruct H as [H|H]);
      cbn in H; intuition (try discriminate); congruence.
Qed.

(** X4.  The receipt of the submit call is not checked.  When the call was
    made and resolves with [undefined] or [null], reading [transaction_hash]
    throws inside the [try] block: the run ends as a Failure whose cause is
    that TypeError, without a [waitForTransaction] call.  With any other
    receipt the callback goes on and waits for whatever it read, [undefined]
    included when the receipt has no [transaction_hash]. *)
Theorem receipt_is_not_checked receipt :
  In (CallInitiateWithdraw the_call) (fst the_run) ->
  initiateWithdraw the_call = Resolves receipt ->
  if Js.is_nullish receipt
  then the_run =
       (opens ++ caught (Js.TypeError "transaction_hash" receipt), Fulfilled)
  else exists tail,
         fst the_run =
         opens ++ waits (Js.get_opt receipt "transaction_hash") ++ tail.
Proof.
  rewrite runTransferToL1_eq.
  destruct (Js.is_nullish selectedToken); [intros []|].
  destruct (Js.is_nullish l2Config).
  { intros H. exfalso. rewrite catching_eq, TypeError_not_nullish in H.
    cbn in H. intuition discriminate. }
  intros _ Hr. rewrite Hr.
  destruct receipt as [| |f|str|fields]; cbn [Js.is_nullish Js.get Js.get_opt];
    try reflexivity;
    destruct (waitForTransaction _ RECEIVED) as [v|reason|];
    rewrite ?catching_eq; try destruct (Js.is_nullish reason); cbn [fst];
    first [ eexists; reflexivity
          | eexists; rewrite <- app_assoc; reflexivity
          | exists []; now rewrite app_nil_r ].
Qed.

(** X5.  Whenever the initiation callback delivers a Failure, its kind is
    TRANSACTION_ERROR and its cause is what made the [try] block stop,
    unchanged: the TypeError of reading the name of a missing [l2Config], the
    reason the submit call or the wait rejected with, or the TypeError of
    reading the hash from a nullish receipt.  The same value was given to
    [logger.error] and [trackError] right before, these three calls end the
    run, no Success is delivered and the callback returns. *)
Theorem failure_carries_its_cause kind cause :
  In (HandleError (progressOptions.error kind cause)) (fst the_run) ->
  kind = TRANSACTION_ERROR /\
  snd the_run = Fulfilled /\
  count is_success (fst the_run) = 0 /\
  (exists tr, fst the_run = tr ++ caught cause) /\
  ((Js.is_nullish l2Config = true /\ cause = Js.TypeError "name" l2Config /\
    count is_chain_call (fst the_run) = 0) \/
   initiateWithdraw the_call = Rejects cause \/
   exists receipt,
     initiateWithdraw the_call = Resolves receipt /\
     (Js.get receipt "transaction_hash" = inr cause \/
      exists hash,
        Js.get receipt "transaction_hash" = inl hash /\
        waitForTransaction hash RECEIVED = Rejects cause)).
Proof.
  run_cases; intros H;
    repeat (apply in_app_or in H; destruct H as [H|H]);
    cbn in H;
    repeat (destruct H as [H|H]; try discriminate H);
    try contradiction;
    injection H as <- <-;
    (split; [reflexivity|]); (split; [reflexivity|]);
    (split; [unfold entering, submitting, waiting; rewrite ?count_app; tally|]);
    (split; [eexists; reflexivity|]);
    first [ left; repeat split; [assumption|tally] | eauto 8 ].
Qed.

End TransferToL1_runs.

(** The sample run that succeeds: the record carries the hash of the receipt. *)
Lemma success_record_of_receipt_witness :
  let rec :=
    Js.obj [("type", sample_action);
            ("sender", Js.str "0x04a0");
            ("recipient", Js.str "0x71c7");
            ("name", Js.str "Ether");
            ("symbol", Js.str "ETH");
            ("amount", Js.num 5%float);
            ("l2hash", Js.str "0xabc")] in
  let r :=
    sample_initiate (Js.str "0x71c7") (Js.str "0x04a0")
      (fun _ => Resolves sample_receipt) (fun _ _ => Resolves Js.undefined) in
  In (HandleData rec) (fst r) /\ snd r = Fulfilled.
Proof.
  cbv zeta.
  assert (H : In (HandleData
                    (Js.obj [("type", sample_action);
                             ("sender", Js.str "0x04a0");
                             ("recipient", Js.str "0x71c7");
                             ("name", Js.str "Ether");
                             ("symbol", Js.str "ETH");
                             ("amount", Js.num 5%float);
                             ("l2hash", Js.str "0xabc")]))
                 (fst (sample_initiate (Js.str "0x71c7") (Js.str "0x04a0")
                         (fun _ => Resolves sample_receipt)
                         (fun _ _ => Resolves Js.undefined)))).
  { cbn. auto 20. }
  split; [exact H|].
  destruct (success_record_of_receipt _ _ _ _ _ _ _ _ _ _ H)
    as (receipt & hash & v & _ & _ & _ & _ & _ & _ & Heq).
  unfold sample_initiate. now rewrite Heq.
Defined.

(** A receipt without a hash: the callback waits for [undefined]. *)
Lemma receipt_is_not_checked_witness :
  let r :=
    sample_initiate (Js.str "0x71c7") (Js.str "0x04a0")
      (fun _ => Resolves (Js.obj [])) (fun _ _ => NeverSettles) in
  In (CallInitiateWithdraw
        (initiate_call (Js.str "0x71c7") sample_selected sample_contract
                       (Js.num 5%float)))
     (fst r) /\
  exists tail,
    fst r =
    submitting (Js.str "0x71c7") (Js.str "0x04a0") (sample_config "Goerli")
               sample_selected sample_contract (Js.num 5%float) ++
    waiting sample_selected (Js.num 5%float) Js.undefined ++ tail.
Proof.
  cbv zeta.
  assert (H : In (CallInitiateWithdraw
                    (initiate_call (Js.str "0x71c7") sample_selected
                                   sample_contract (Js.num 5%float)))
                 (fst (sample_initiate (Js.str "0x71c7") (Js.str "0x04a0")
                         (fun _ => Resolves (Js.obj []))
                         (fun _ _ => NeverSettles)))).
  { cbn. auto 20. }
  split; [exact H|].
  exact (receipt_is_not_checked
           (Js.str "0x71c7") (Js.str "0x04a0") (sample_config "Goerli")
           sample_selected sample_contract sample_action
           (fun _ => Resolves (Js.obj [])) (fun _ _ => NeverSettles)
           (Js.num 5%float) (Js.obj []) H eq_refl).
Defined.

(** The submit call rejects with a string: the Failure carries the string. *)
Lemma failure_carries_its_cause_witness :
  let r :=
    sample_initiate (Js.str "0x71c7") (Js.str "0x04a0")
      (fun _ => Rejects (Js.str "insufficient funds")) (fun _ _ => NeverSettles) in
  In (HandleError
        (progressOptions.error TRANSACTION_ERROR (Js.str "insufficient funds")))
     (fst r) /\
  snd r = Fulfilled.
Proof.
  cbv zeta.
  assert (H : In (HandleError
                    (progressOptions.error TRANSACTION_ERROR
                       (Js.str "insufficient funds")))
                 (fst (sample_initiate (Js.str "0x71c7") (Js.str "0x04a0")
                         (fun _ => Rejects (Js.str "insufficient funds"))
                         (fun _ _ => NeverSettles)))).
  { cbn. auto 20. }
  split; [exact H|].
  exact (proj1 (proj2 (failure_carries_its_cause _ _ _ _ _ _ _ _ _ _ _ H))).
Defined.

(** ** The completion variant, signal by signal *)

Lemma progress_steps_app a b :
  progress_steps (a ++ b) = progress_steps a ++ progress_steps b.
Proof.
  induction a as [|e a IH]; [reflexivity|].
  destruct e; cbn [app progress_steps]; try exact IH.
  now rewrite IH, app_assoc.
Qed.

Section CompleteTransferToL1_signals.

Variable l1Account : Js.value.
Variable l1Config : Js.value.
Variable getL1Token : Js.value -> Js.value.
Variable getL1TokenBridgeContract : Js.value -> Js.value.
Variable forwards_once : bool.
Variable transfer : Js.value.

Local Abbreviation token := (l1Token getL1Token transfer).
Local Abbreviation begin :=
  (start l1Account l1Config getL1Token getL1TokenBridgeContract transfer).
Local Abbreviation step := (deliver forwards_once transfer).
Local Abbreviation the_run :=
  (run l1Account l1Config getL1Token getL1TokenBridgeContract
       forwards_once transfer).
Local Abbreviation gets_in := (enters transfer).
Local Abbreviation listens := (subscribes l1Config transfer).
Local Abbreviation withdraws := (submits l1Config getL1Token transfer).

(** The synchronous part, by how far it gets. *)
Ltac begin_cases :=
  rewrite ?start_eq; unfold begun, submits, subscribes, enters in *;
  fold token in *;
  destruct (Js.is_nullish transfer) eqn:?;
  [|destruct (Js.is_nullish l1Config) eqn:?;
    [|destruct (Js.is_nullish token) eqn:?]];
  cbn [negb andb orb world trace submitted promise listeners] in *.

(** A signal adds its reaction to the trace, and leaves [submitted] alone. *)
Lemma deliver_trace r s :
  listeners (world r) <= 1 ->
  trace (world (step r s)) = trace (world r) ++ reaction transfer r s /\
  submitted (step r s) = submitted r.
Proof.
  destruct r as [[tr n] sb pr]; cbn [world listeners trace]; intros Hl.
  destruct s as [error h|error event|v|reason];
    cbn [deliver reaction world listeners trace submitted promise].
  - destruct sb; [|now rewrite app_nil_r].
    unfold call. rewrite onTransactionHash_eq.
    destruct (Js.truthy error); split; reflexivity.
  - destruct n as [|[|n]]; [now rewrite app_nil_r| |lia].
    cbn [forEach]. unfold call. rewrite onWithdrawal_eq.
    destruct (Js.truthy error); [destruct forwards_once; split; reflexivity|].
    destruct (Js.get event "transactionHash");
      destruct forwards_once; cbn [fst trace world submitted];
      rewrite ?app_nil_r; split; reflexivity.
  - destruct (is_pending pr); cbn [world trace submitted];
      now rewrite app_nil_r.
  - destruct (is_pending pr); [|now rewrite app_nil_r].
    rewrite onError_eq. split; reflexivity.
Qed.

Lemma run_step signals s :
  trace (world (the_run (signals ++ [s]))) =
    trace (world (the_run signals)) ++ reaction transfer (the_run signals) s /\
  submitted (the_run (signals ++ [s])) = submitted (the_run signals).
Proof.
  rewrite run_snoc. apply deliver_trace.
  apply (reachable_invariant l1Account l1Config getL1Token
           getL1TokenBridgeContract forwards_once transfer), reachable_run.
Qed.

Lemma run_submitted signals : submitted (the_run signals) = withdraws.
Proof.
  apply (reachable_invariant l1Account l1Config getL1Token
           getL1TokenBridgeContract forwards_once transfer), reachable_run.
Qed.

(** What no callback adds to a trace is counted at the start. *)
Lemma count_from_start p signals :
  (forall error, count p (error_burst error) = 0) ->
  (forall h, count p (signed_burst transfer h) = 0) ->
  (forall h, count p (success_burst transfer h) = 0) ->
  count p (trace (world (the_run signals))) = count p (trace (world begin)).
Proof.
  intros He Hs Hd.
  induction signals as [|s signals IH] using rev_ind; [reflexivity|].
  rewrite (proj1 (run_step signals s)), count_app, IH.
  assert (count p (reaction transfer (the_run signals) s) = 0); [|lia].
  destruct s as [error h|error event|v|reason]; cbn [reaction].
  - destruct (submitted _); [destruct (Js.truthy error)|]; auto.
  - destruct (listeners _); [reflexivity|].
    destruct (Js.truthy error); auto.
    destruct (Js.get event "transactionHash"); auto.
  - reflexivity.
  - destruct (is_pending _); auto.
Qed.

(** X6.  The promise the completion callback returns settles with the
    synchronous part or with the promise of [withdraw], and with nothing
    else.  It rejects in one case only, at once: [transfer] is [undefined] or
    [null] and the destructuring before the [try] block throws.  Otherwise
    it never rejects: it is fulfilled at once when [l1Config] or the token is
    missing (the error path has run), and else it is pending until
    [withdraw] has resolved or rejected, whatever the signing callback and
    the listener report. *)
Theorem promise_settles_with_withdraw signals :
  promise (the_run signals) =
  if Js.is_nullish transfer then Rejected (Js.TypeError "symbol" transfer)
  else if Js.is_nullish l1Config || Js.is_nullish token
          || existsb is_settle signals
  then Fulfilled else Pending.
Proof.
  destruct withdraws eqn:Hw.
  - assert (Hf : Js.is_nullish transfer = false /\ Js.is_nullish l1Config = false
                 /\ Js.is_nullish token = false).
    { revert Hw. unfold submits, subscribes, enters. fold token.
      destruct (Js.is_nullish transfer), (Js.is_nullish l1Config),
        (Js.is_nullish token); cbn; auto; discriminate. }
    destruct Hf as (Ht & Hc & Hk). rewrite Ht, Hc, Hk. cbn [orb].
    induction signals as [|s signals IH] using rev_ind.
    + unfold run; cbn [fold_left existsb]. rewrite start_eq. unfold begun.
      fold token. now rewrite Ht, Hc, Hk.
    + rewrite run_snoc, existsb_app. cbn [existsb]. rewrite orb_false_r.
      destruct s as [error h|error event|v|reason]; cbn [deliver is_settle];
        rewrite ?orb_false_r, ?orb_true_r.
      * now destruct (submitted _).
      * now destruct (listeners _).
      * destruct (existsb is_settle signals);
          rewrite IH; cbn [is_pending promise]; [exact IH|reflexivity].
      * destruct (existsb is_settle signals);
          rewrite IH; cbn [is_pending]; [exact IH|].
        now rewrite onError_eq.
  - rewrite run_over by exact Hw. revert Hw. begin_cases;
      first [reflexivity | discriminate].
Qed.

(** X7.  A run of the completion callback records the initiated event once
    when it gets to [sendWithdrawal] and never when it does not ([transfer]
    or [l1Config] is missing); it calls [withdraw] once when, besides, the
    token resolves, and never otherwise.  No signal makes the hook record
    the event or submit again, or call another chain function. *)
Theorem initiated_and_submitted_once signals :
  count is_track_initiated (trace (world (the_run signals))) =
    (if listens then 1 else 0) /\
  count is_chain_call (trace (world (the_run signals))) =
    (if withdraws then 1 else 0).
Proof.
  split; rewrite count_from_start by reflexivity; begin_cases; reflexivity.
Qed.

(** X8.  The progress events of a completion run.  A run that does not get
    past the name of [l1Config] ([transfer] or [l1Config] is missing) emits
    none.  Any other run emits the CONFIRM_TX event once, at the start, then
    one WITHDRAW event for every call of the signing callback without an
    error (none when the token lookup failed, as the callback was never
    handed out).  The steps never go back, and the WITHDRAW step is repeated
    when the callback is called again, also after a Failure. *)
Theorem progress_of_completion signals :
  progress_steps (trace (world (the_run signals))) =
  if listens
  then stepOf CONFIRM_TX CompleteTransferToL1Steps ::
       repeat (stepOf WITHDRAW CompleteTransferToL1Steps)
              (if withdraws then List.length (filter is_signed signals) else 0)
  else [].
Proof.
  destruct withdraws eqn:Hw.
  - assert (Hl : listens = true).
    { revert Hw. unfold submits. now destruct listens. }
    rewrite Hl.
    induction signals as [|s signals IH] using rev_ind.
    + unfold run; cbn [fold_left filter List.length repeat].
      revert Hw. begin_cases; first [reflexivity | discriminate].
    + rewrite (proj1 (run_step signals s)), progress_steps_app, IH.
      rewrite filter_app, length_app. cbn [filter].
      destruct s as [error h|error event|v|reason]; cbn [reaction is_signed].
      * rewrite run_submitted, Hw.
        destruct (Js.truthy error); cbn [negb List.length].
        -- rewrite Nat.add_0_r. cbn. now rewrite app_nil_r.
        -- rewrite Nat.add_1_r. cbn [progress_steps step_of app repeat].
           rewrite (repeat_cons (List.length (filter is_signed signals))).
           reflexivity.
      * cbn [List.length]. rewrite Nat.add_0_r.
        destruct (listeners _); [now rewrite app_nil_r|].
        destruct (Js.truthy error); [cbn; now rewrite app_nil_r|].
        destruct (Js.get event "transactionHash"); cbn; now rewrite app_nil_r.
      * cbn [List.length]. rewrite Nat.add_0_r. cbn. now rewrite app_nil_r.
      * cbn [List.length]. rewrite Nat.add_0_r.
        destruct (is_pending _); cbn; now rewrite app_nil_r.
  - rewrite run_over by exact Hw. revert Hw. begin_cases;
      first [reflexivity | discriminate].
Qed.

(** X9.  Every record a completion run hands to [handleData] is the
    transfer the callback was called with, spread into a new object with
    [l1hash] set: the [transactionHash] of a withdrawal event that reached
    the listener without an error, which is also the hash given to
    [trackSuccess]. *)
Theorem success_record_of_event signals rec :
  In (HandleData rec) (trace (world (the_run signals))) ->
  exists error event l1hash,
    In (Withdrawal error event) signals /\
    Js.truthy error = false /\
    Js.get event "transactionHash" = inl l1hash /\
    rec = Js.spread_with transfer "l1hash" l1hash /\
    Js.get rec "l1hash" = inl l1hash /\
    In (TrackSuccess l1hash) (trace (world (the_run signals))).
Proof.
  assert (Hset : forall x fs, Js.field "l1hash" (Js.set "l1hash" x fs) = x).
  { intros x fs. induction fs as [|[k v] fs IH]; [reflexivity|].
    cbn [Js.set]. destruct (String.eqb "l1hash" k) eqn:E; cbn [Js.field];
      now rewrite E. }
  induction signals as [|s signals IH] using rev_ind.
  - unfold run; cbn [fold_left]. begin_cases; intros H;
      repeat (apply in_app_or in H; destruct H as [H|H]);
      cbn in H; intuition discriminate.
  - rewrite (proj1 (run_step signals s)). intros H.
    apply in_app_or in H. destruct H as [H|H].
    + destruct (IH H) as (error & event & h & Hin & He & Hg & Hr & Hl & Ht).
      exists error, event, h. repeat split; auto using in_or_app.
    + assert (Hb : forall e, ~ In (HandleData rec) (error_burst e))
        by (intros e; cbn; intuition discriminate).
      destruct s as [error h|error event|v|reason]; cbn [reaction] in H |- *.
      * destruct (submitted _); [|contradiction].
        destruct (Js.truthy error); [now apply Hb in H|].
        cbn in H. intuition discriminate.
      * destruct (listeners _); [contradiction|].
        destruct (Js.truthy error) eqn:He; [now apply Hb in H|].
        destruct (Js.get event "transactionHash") as [h|] eqn:Hg; [|contradiction].
        assert (Hrec : rec = Js.spread_with transfer "l1hash" h).
        { cbn in H. intuition (try discriminate). congruence. }
        exists error, event, h.
        split; [apply in_or_app; right; now left|].
        split; [exact He|]. split; [exact Hg|]. split; [exact Hrec|].
        split; [rewrite Hrec; unfold Js.spread_with; cbn [Js.get]; now rewrite Hset|].
        apply in_or_app. right. unfold success_burst. cbn [In]. auto.
      * contradiction.
      * destruct (is_pending _); [now apply Hb in H|contradiction].
Qed.

(** X10.  Every Failure a completion run delivers has the kind
    TRANSACTION_ERROR and carries, unchanged, an error the hook was given or
    ran into: the TypeError of reading the name of a missing [l1Config], the
    TypeError of the failed token lookup, the error of a signing-callback or
    listener signal, or the reason the [withdraw] promise rejected with;
    [trackError] was called with the same value. *)
Theorem failure_cause_of_completion signals kind cause :
  In (HandleError (progressOptions.error kind cause))
     (trace (world (the_run signals))) ->
  kind = TRANSACTION_ERROR /\
  In (TrackError cause) (trace (world (the_run signals))) /\
  ((Js.is_nullish l1Config = true /\ cause = Js.TypeError "name" l1Config) \/
   (Js.is_nullish token = true /\ cause = Js.TypeError "bridgeAddress" token) \/
   exists s, In s signals /\ signalled_error s = Some cause).
Proof.
  assert (Hb : forall e,
             In (HandleError (progressOptions.error kind cause)) (error_burst e) ->
             kind = TRANSACTION_ERROR /\ cause = e /\
             In (TrackError cause) (error_burst e)).
  { intros e H. cbn in H.
    repeat (destruct H as [H|H]; try discriminate H); [|contradiction].
    injection H as <- <-. cbn. auto. }
  induction signals as [|s signals IH] using rev_ind.
  - unfold run; cbn [fold_left]. begin_cases; intros H;
      try (apply in_app_or in H; destruct H as [H|H]);
      try (cbn in H; intuition discriminate);
      destruct (Hb _ H) as (-> & -> & Ht);
      (split; [reflexivity|]); (split; [apply in_or_app; now right|]); auto.
  - rewrite (proj1 (run_step signals s)). intros H.
    apply in_app_or in H. destruct H as [H|H].
    + destruct (IH H) as (Hk & Ht & Ho).
      split; [exact Hk|]. split; [apply in_or_app; now left|].
      destruct Ho as [Ho|[Ho|(s0 & Hin & Hs)]]; [now left|right; now left|].
      right. right. exists s0. split; [apply in_or_app; now left|exact Hs].
    + assert (Hnew : forall e,
                 signalled_error s = Some e ->
                 In (HandleError (progressOptions.error kind cause)) (error_burst e) ->
                 kind = TRANSACTION_ERROR /\
                 In (TrackError cause)
                    (trace (world (the_run signals)) ++ error_burst e) /\
                 ((Js.is_nullish l1Config = true /\
                   cause = Js.TypeError "name" l1Config) \/
                  (Js.is_nullish token = true /\
                   cause = Js.TypeError "bridgeAddress" token) \/
                  exists s0, In s0 (signals ++ [s]) /\ signalled_error s0 = Some cause)).
      { intros e Hs He. destruct (Hb _ He) as (-> & -> & Ht).
        split; [reflexivity|]. split; [apply in_or_app; now right|].
        right. right. exists s. split; [apply in_or_app; right; now left|exact Hs]. }
      destruct s as [error h|error event|v|reason];
        cbn [reaction signalled_error] in *.
      * destruct (submitted _); [|contradiction].
        destruct (Js.truthy error); [now apply Hnew|].
        cbn in H. intuition discriminate.
      * destruct (listeners _); [contradiction|].
        destruct (Js.truthy error); [now apply Hnew|].
        destruct (Js.get event "transactionHash"); [|contradiction].
        cbn in H. intuition discriminate.
      * contradiction.
      * destruct (is_pending _); [now apply Hnew|contradiction].
Qed.

(** X11.  The withdrawal event given to the listener callback is not
    checked.  With no error and an event that is [undefined] or [null], the
    callback throws the TypeError of reading [transactionHash] back to its
    caller and records nothing, neither a success nor an error; with any
    other event it records a Success with whatever it read, [undefined]
    included when the event has no [transactionHash]. *)
Theorem withdrawal_event_is_not_checked error event w :
  Js.truthy error = false ->
  onWithdrawal transfer error event w =
  if Js.is_nullish event
  then (w, Throw (Js.TypeError "transactionHash" event))
  else (mkWorld (trace w ++
                 [LoggerLog "Done" [Js.get_opt event "transactionHash"];
                  TrackSuccess (Js.get_opt event "transactionHash");
                  HandleData
                    (Js.spread_with transfer "l1hash"
                       (Js.get_opt event "transactionHash"))])
                (listeners w),
        Normal tt).
Proof.
  intros He. rewrite onWithdrawal_eq, He. now destruct event.
Qed.

End CompleteTransferToL1_signals.

(** The sample run that succeeds: the record carries the hash of the event. *)
Lemma success_record_of_event_witness :
  let signals :=
    [TransactionHash Js.undefined (Js.str "0x5e1f");
     Withdrawal Js.undefined sample_event] in
  let tr := trace (world (sample_complete (fun _ => sample_token) true signals)) in
  let rec := Js.spread_with sample_transfer "l1hash" (Js.str "0x5e1f") in
  In (HandleData rec) tr /\
  exists l1hash, Js.get rec "l1hash" = inl l1hash /\ In (TrackSuccess l1hash) tr.
Proof.
  cbv zeta.
  assert (H : In (HandleData
                    (Js.spread_with sample_transfer "l1hash" (Js.str "0x5e1f")))
                 (trace (world (sample_complete (fun _ => sample_token) true
                                  [TransactionHash Js.undefined (Js.str "0x5e1f");
                                   Withdrawal Js.undefined sample_event]))))
    by (cbn; auto 20).
  split; [exact H|].
  destruct (success_record_of_event _ _ _ _ _ _ _ _ H)
    as (error & event & h & _ & _ & _ & _ & Hl & Ht).
  now exists h.
Defined.

(** The signing callback reports an error: the Failure carries it. *)
Lemma failure_cause_of_completion_witness :
  let signals := [TransactionHash (Js.str "User denied") Js.undefined] in
  let tr := trace (world (sample_complete (fun _ => sample_token) false signals)) in
  In (HandleError (progressOptions.error TRANSACTION_ERROR (Js.str "User denied"))) tr /\
  In (TrackError (Js.str "User denied")) tr.
Proof.
  cbv zeta.
  assert (H : In (HandleError
                    (progressOptions.error TRANSACTION_ERROR (Js.str "User denied")))
                 (trace (world (sample_complete (fun _ => sample_token) false
                                  [TransactionHash (Js.str "User denied")
                                     Js.undefined]))))
    by (cbn; auto 20).
  split; [exact H|].
  exact (proj1 (proj2 (failure_cause_of_completion _ _ _ _ _ _ _ _ _ H))).
Defined.

(** An event without a hash: a Success with [undefined] is recorded. *)
Lemma withdrawal_event_is_not_checked_witness :
  Js.truthy Js.undefined = false /\
  fst (onWithdrawal sample_transfer Js.undefined (Js.obj []) (mkWorld [] 1)) =
  mkWorld [LoggerLog "Done" [Js.undefined];
           TrackSuccess Js.undefined;
           HandleData (Js.spread_with sample_transfer "l1hash" Js.undefined)] 1.
Proof.
  split; [reflexivity|].
  now rewrite (withdrawal_event_is_not_checked
                 sample_transfer Js.undefined (Js.obj []) (mkWorld [] 1) eq_refl).
Defined.

(** ** The decimal helpers on whole amounts and signs *)

Section Decimals_more.

Import parser.
Local Open Scope Z_scope.

(** A whole number [+/- k], and the same number of tokens in base units, as
    binary64 values. *)
Lemma whole_canon s (pk p5 : positive) (d : Z) :
  Zpos p5 = 5 ^ d -> Zpos (pk * p5) < 2 ^ 53 -> 0 <= d <= 900 ->
  Prim2SF (of_Z (cond_Zopp s (Zpos pk))) = canon s pk 0 /\
  Prim2SF (of_Z (cond_Zopp s (Zpos pk) * 10 ^ d)) = canon s (pk * p5) d.
Proof.
  intros Hp5 Hb Hd.
  assert (Hm : Zpos (pk * p5) = Zpos pk * Zpos p5) by apply Pos2Z.inj_mul.
  assert (Hk : Zpos pk < 2 ^ 53).
  { pose proof (Pos2Z.is_pos p5). nia. }
  split.
  - replace (cond_Zopp s (Zpos pk)) with (cond_Zopp s (Zpos pk * 2 ^ 0))
      by (now rewrite Z.mul_1_r).
    apply Prim2SF_of_Z_canon; [apply digits_le; lia|lia].
  - replace (cond_Zopp s (Zpos pk) * 10 ^ d)
      with (cond_Zopp s (Zpos (pk * p5) * 2 ^ d)).
    + apply Prim2SF_of_Z_canon; [apply digits_le; lia|lia].
    + rewrite Hm, Hp5. change 10 with (5 * 2). rewrite Z.pow_mul_l.
      destruct s; cbn [cond_Zopp]; ring.
Qed.

(** X12.  Whole numbers of tokens convert without rounding, both ways: for
    decimals [d] from 0 to 18 and a whole [k] with [|k| * 5^d < 2^53],
    [toDecimals(k, d)] is exactly [k * 10^d] and [fromDecimals(k * 10^d, d)]
    is exactly [k]; so [fromDecimals(toDecimals(k, d), d) == k]. *)
Theorem whole_amounts_convert_exactly (d : N) (k : Z) :
  (d <= 18)%N ->
  Z.abs k * 5 ^ Z.of_N d < 2 ^ 53 ->
  toDecimals (of_Z k) (Some d) = of_Z (k * 10 ^ Z.of_N d) /\
  fromDecimals (of_Z (k * 10 ^ Z.of_N d)) (Some d) = of_Z k /\
  equals (fromDecimals (toDecimals (of_Z k) (Some d)) (Some d)) (of_Z k) = true.
Proof.
  intros Hd Hk. destruct (five_pow_bound d Hd) as [H0 H53].
  unfold toDecimals, fromDecimals, or_default.
  set (p5 := Z.to_pos (5 ^ Z.of_N d)).
  assert (Hp5 : Zpos p5 = 5 ^ Z.of_N d) by now apply Z2Pos.id.
  pose proof (Prim2SF_powerOf d Hd) as HP. fold p5 in HP.
  assert (Hconv : (of_Z k * powerOf d)%float = of_Z (k * 10 ^ Z.of_N d) /\
                  (of_Z (k * 10 ^ Z.of_N d) / powerOf d)%float = of_Z k /\
                  SFeqb (Prim2SF (of_Z k)) (Prim2SF (of_Z k)) = true).
  { destruct k as [|pk|pk].
    - repeat split; try reflexivity; apply Prim2SF_inj;
        rewrite ?mul_spec, ?div_spec, HP; reflexivity.
    - assert (Hm : Zpos (pk * p5) = Zpos pk * Zpos p5) by apply Pos2Z.inj_mul.
      assert (Hb : Zpos (pk * p5) < 2 ^ 53) by (rewrite Hm, Hp5; exact Hk).
      destruct (whole_canon false pk p5 (Z.of_N d) Hp5 Hb ltac:(lia)) as [Ck Cv].
      cbn [cond_Zopp] in Ck, Cv.
      repeat split.
      + apply Prim2SF_inj. rewrite mul_spec, HP, Ck, Cv.
        apply (mul_exact false pk p5 (pk * p5) (Z.of_N d) Hm Hb). lia.
      + apply Prim2SF_inj. rewrite div_spec, HP, Ck, Cv.
        apply (div_exact false pk p5 (pk * p5) (Z.of_N d) Hm Hb).
      + rewrite Ck. apply canon_eqb.
    - assert (Hm : Zpos (pk * p5) = Zpos pk * Zpos p5) by apply Pos2Z.inj_mul.
      assert (Hb : Zpos (pk * p5) < 2 ^ 53) by (rewrite Hm, Hp5; exact Hk).
      destruct (whole_canon true pk p5 (Z.of_N d) Hp5 Hb ltac:(lia)) as [Ck Cv].
      cbn [cond_Zopp Z.opp] in Ck, Cv.
      repeat split.
      + apply Prim2SF_inj. rewrite mul_spec, HP, Ck, Cv.
        apply (mul_exact true pk p5 (pk * p5) (Z.of_N d) Hm Hb). lia.
      + apply Prim2SF_inj. rewrite div_spec, HP, Ck, Cv.
        apply (div_exact true pk p5 (pk * p5) (Z.of_N d) Hm Hb).
      + rewrite Ck. apply canon_eqb. }
  destruct Hconv as (Hmul & Hdiv & Hrefl).
  repeat split; [exact Hmul|exact Hdiv|].
  rewrite Hmul, Hdiv. unfold equals. now rewrite eqb_spec.
Qed.

(** Rounding does not look at the sign. *)
Lemma binary_round_aux_opp s m e l :
  SFopp (binary_round_aux prec emax s m e l) =
  binary_round_aux prec emax (negb s) m e l.
Proof.
  unfold binary_round_aux.
  destruct (shr_fexp prec emax m e l) as [mrs e'].
  destruct (shr_fexp prec emax _ e' loc_Exact) as [mrs' e''].
  destruct (shr_m mrs'); [reflexivity| |reflexivity].
  now destruct (Z.leb _ _).
Qed.

Lemma SFmul_opp x y :
  SFmul prec emax (SFopp x) y = SFopp (SFmul prec emax x y).
Proof.
  destruct x as [sx|sx| |sx mx ex], y as [sy|sy| |sy my ey];
    cbn [SFmul SFopp]; rewrite <- ?negb_xorb_l; try reflexivity.
  now rewrite binary_round_aux_opp.
Qed.

Lemma SFdiv_opp x y :
  SFdiv prec emax (SFopp x) y = SFopp (SFdiv prec emax x y).
Proof.
  destruct x as [sx|sx| |sx mx ex], y as [sy|sy| |sy my ey];
    cbn [SFdiv SFopp]; rewrite <- ?negb_xorb_l; try reflexivity.
  destruct (SFdiv_core_binary prec emax (Zpos mx) ex (Zpos my) ey) as [[mz ez] lz].
  now rewrite binary_round_aux_opp.
Qed.

(** X13.  Both helpers are odd: for every number [v] (infinities and NaN
    included) and every decimals argument, given or left out, converting
    [-v] gives the opposite of converting [v]. *)
Theorem conversions_are_odd (v : float) (decimals : option N) :
  toDecimals (- v) decimals = (- toDecimals v decimals)%float /\
  fromDecimals (- v) decimals = (- fromDecimals v decimals)%float.
Proof.
  unfold toDecimals, fromDecimals. split; apply Prim2SF_inj.
  - rewrite mul_spec, !opp_spec, mul_spec. apply SFmul_opp.
  - rewrite div_spec, !opp_spec, div_spec. apply SFdiv_opp.
Qed.

End Decimals_more.

(** Twelve tokens of six decimals. *)
Lemma whole_amounts_convert_exactly_witness :
  (6 <= 18)%N /\
  (Z.abs 12 * 5 ^ Z.of_N 6 < 2 ^ 53)%Z /\
  parser.toDecimals (parser.of_Z 12) (Some 6%N) = parser.of_Z (12 * 10 ^ Z.of_N 6).
Proof.
  split; [discriminate|]. split; [reflexivity|].
  apply (whole_amounts_convert_exactly 6 12); [discriminate|reflexivity].
Defined.
